(** * graphql-mcp: a shallow embedding of the server's query-safety engine,
      tool catalog and dispatcher, with the properties proved about them.

    The TypeScript source is a single module (the server); every definition
    below carries the name of the function it embeds. *)

From Stdlib Require Import ZArith NArith QArith Strings.String Strings.Ascii Lia.
From stdpp Require Import base option list gmap.

Local Open Scope nat_scope.

(** ** JavaScript strings

    A JavaScript string is a sequence of UTF-16 code units.  None of the
    regular expressions of the server carries the [u] flag, so they work on
    code units, and so do [includes], [trim] and comparison with [===]. *)

Abbreviation jsstring := (list N).

(** [js "..."] is the string literal with the given (ASCII) characters. *)
Definition js (s : string) : jsstring :=
  (fun a => N_of_ascii a) <$> list_ascii_of_string s.

Module Char.
Definition lbrace : N := 123.   (* { *)
Definition rbrace : N := 125.   (* } *)
Definition lparen : N := 40.    (* ( *)
Definition hash : N := 35.      (* # *)
Definition slash : N := 47.     (* / *)
Definition star : N := 42.      (* * *)
Definition space : N := 32.
Definition cr : N := 13.
Definition lf : N := 10.

(** The class [\w] without the [i] and [u] flags: [A-Za-z0-9_]. *)
Definition isWord (c : N) : bool :=
  ((65 <=? c) && (c <=? 90) || (97 <=? c) && (c <=? 122)
   || (48 <=? c) && (c <=? 57) || (c =? 95))%N.

(** The class [\s]: ECMAScript WhiteSpace and LineTerminator code points.
    [String.prototype.trim] strips exactly the same set. *)
Definition isSpace (c : N) : bool :=
  ((9 <=? c) && (c <=? 13) || (c =? 32) || (c =? 160) || (c =? 5760)
   || (8192 <=? c) && (c <=? 8202) || (c =? 8232) || (c =? 8233)
   || (c =? 8239) || (c =? 8287) || (c =? 12288) || (c =? 65279))%N.

(** The class [[^\r\n]]. *)
Definition notLineBreak (c : N) : bool := negb ((c =? cr) || (c =? lf))%N.
End Char.

(** ** Regular-expression matching, as far as the server uses it

    A matcher takes the text from the current position on and returns the
    length of the match there, if there is one.  The expressions used have
    no anchors, word boundaries, look-behind or back-references, so a match
    at a position depends on the text from that position on only. *)

Definition matcher := jsstring -> option nat.

(** [p* k] with a greedy star: the longest run of [p] comes first, and the
    engine backtracks to shorter runs while the continuation [k] fails.
    The result is the length of the run. *)
Fixpoint greedyStar (p : N -> bool) (k : jsstring -> bool) (s : jsstring) : option nat :=
  match s with
  | c :: rest =>
      if p c then
        match greedyStar p k rest with
        | Some n => Some (S n)
        | None => if k s then Some 0 else None
        end
      else if k s then Some 0 else None
  | [] => if k [] then Some 0 else None
  end.

(** [p+ k]. *)
Definition greedyPlus (p : N -> bool) (k : jsstring -> bool) (s : jsstring) : option nat :=
  match s with
  | c :: rest => if p c then S <$> greedyStar p k rest else None
  | [] => None
  end.

(** [[\s\S]*? k] with a lazy star: the shortest run comes first.  The
    result is the length of the run plus the length matched by [k]. *)
Fixpoint lazyAny (k : matcher) (s : jsstring) : option nat :=
  match k s with
  | Some n => Some n
  | None =>
      match s with
      | _ :: rest => S <$> lazyAny k rest
      | [] => None
      end
  end.

(** A literal of two code units. *)
Definition lit2 (a b : N) (s : jsstring) : option jsstring :=
  match s with
  | x :: y :: rest => if ((x =? a) && (y =? b))%N then Some rest else None
  | _ => None
  end.

(** [String.prototype.replace] with a global expression whose matches are
    never empty: the text is scanned from left to right; a match of length
    [S m] at the current position is replaced by [repl] and the scan goes on
    after it ([skip] counts the code units of the match still to pass), a
    position with no match keeps its code unit. *)
Fixpoint replaceAllFrom (re : matcher) (repl : jsstring) (skip : nat) (s : jsstring) : jsstring :=
  match s with
  | [] => []
  | c :: rest =>
      match skip with
      | S k => replaceAllFrom re repl k rest
      | O =>
          match re s with
          | Some (S m) => repl ++ replaceAllFrom re repl m rest
          | _ => c :: replaceAllFrom re repl 0 rest
          end
      end
  end.

Definition replaceAll (re : matcher) (repl : jsstring) (s : jsstring) : jsstring :=
  replaceAllFrom re repl 0 s.

(** [String.prototype.match] with a global expression whose matches are
    never empty, as far as the server uses the result: the number of
    matches ([null] counts as none). *)
Fixpoint countMatchesFrom (re : matcher) (skip : nat) (s : jsstring) : nat :=
  match s with
  | [] => 0
  | c :: rest =>
      match skip with
      | S k => countMatchesFrom re k rest
      | O =>
          match re s with
          | Some (S m) => S (countMatchesFrom re m rest)
          | _ => countMatchesFrom re 0 rest
          end
      end
  end.

Definition countMatches (re : matcher) (s : jsstring) : nat := countMatchesFrom re 0 s.

(** [String.prototype.trim]. *)
Fixpoint trimStart (s : jsstring) : jsstring :=
  match s with
  | c :: rest => if Char.isSpace c then trimStart rest else s
  | [] => []
  end.

Definition trimEnd (s : jsstring) : jsstring := rev (trimStart (rev s)).

Definition trim (s : jsstring) : jsstring := trimEnd (trimStart s).

(** [String.prototype.includes]: [needle] occurs in [hay] at some position. *)
Fixpoint startsWith (needle hay : jsstring) : bool :=
  match needle, hay with
  | [], _ => true
  | a :: needle', b :: hay' => (a =? b)%N && startsWith needle' hay'
  | _ :: _, [] => false
  end.

Fixpoint includes (hay needle : jsstring) : bool :=
  startsWith needle hay ||
  match hay with
  | _ :: hay' => includes hay' needle
  | [] => false
  end.

(** [Array.prototype.join]. *)
Fixpoint join (sep : jsstring) (parts : list jsstring) : jsstring :=
  match parts with
  | [] => []
  | [p] => p
  | p :: ps => p ++ sep ++ join sep ps
  end.

(** ** SafetyGuard: the measures of a query text *)

(** The expression [/\/\*[\s\S]*?\*\//]. *)
Definition reBlockComment : matcher := fun s =>
  match lit2 Char.slash Char.star s with
  | Some body => (fun n => 2 + n) <$> lazyAny (fun t => (fun _ => 2) <$> lit2 Char.star Char.slash t) body
  | None => None
  end.

(** The expression [/#[^\r\n]*/]. *)
Definition reLineComment : matcher := fun s =>
  match s with
  | c :: rest =>
      if (c =? Char.hash)%N then S <$> greedyStar Char.notLineBreak (fun _ => true) rest
      else None
  | [] => None
  end.

(** The expression [/\s+/]. *)
Definition reWhitespace : matcher := greedyPlus Char.isSpace (fun _ => true).

(** The expression [/\w+(?=\s*[{(])/]; the look-ahead consumes nothing. *)
Definition openerAhead (s : jsstring) : bool :=
  bool_decide (is_Some (greedyStar Char.isSpace
    (fun t => match t with
              | c :: _ => ((c =? Char.lbrace) || (c =? Char.lparen))%N
              | [] => false
              end) s)).

Definition reFieldBeforeOpener : matcher := greedyPlus Char.isWord openerAhead.

Definition calculateQueryComplexity (query : jsstring) : nat :=
  countMatches reFieldBeforeOpener query.

(** The loop of [calculateQueryDepth]: [depth] may go below zero. *)
Fixpoint depthLoop (depth maxDepth : Z) (query : jsstring) : Z :=
  match query with
  | [] => maxDepth
  | char :: rest =>
      if (char =? Char.lbrace)%N then depthLoop (depth + 1) (Z.max maxDepth (depth + 1)) rest
      else if (char =? Char.rbrace)%N then depthLoop (depth - 1) maxDepth rest
      else depthLoop depth maxDepth rest
  end.

Definition calculateQueryDepth (query : jsstring) : Z := depthLoop 0 0 query.

Definition removeBlockComments : jsstring -> jsstring := replaceAll reBlockComment [].
Definition removeLineComments : jsstring -> jsstring := replaceAll reLineComment [].
Definition normalizeWhitespace : jsstring -> jsstring := replaceAll reWhitespace [Char.space].

Definition sanitizeQuery (query : jsstring) : jsstring :=
  trim (normalizeWhitespace (removeLineComments (removeBlockComments query))).

(** ** Numbers

    The limits of a configuration are JavaScript numbers that have passed
    the range checks of the argument schema, hence finite; they are modelled
    as rationals.  Scores are integers. *)

(** [score > limit]. *)
Definition exceeds (score : Z) (limit : Q) : bool := negb (Qle_bool (inject_Z score) limit).

(** [z.number().min(lo).max(hi)]. *)
Definition inRange (lo hi : Z) (x : Q) : bool :=
  Qle_bool (inject_Z lo) x && Qle_bool x (inject_Z hi).

(** A string is truthy when it is not empty. *)
Definition truthy (s : option jsstring) : bool :=
  match s with
  | Some (_ :: _) => true
  | _ => false
  end.

(** [a || b] on strings. *)
Definition orElse (a : jsstring) (b : jsstring) : jsstring :=
  match a with
  | [] => b
  | _ :: _ => a
  end.

(** ** Objects

    [object[key] = value] on a plain object, as far as the own keys of the
    object go (those that [Object.entries], [JSON.stringify] and a spread
    see): the key [__proto__] names the prototype of the object, and an
    assignment to it adds no own key. *)
Definition assign {V} (key : jsstring) (value : V) (object : gmap jsstring V)
    : gmap jsstring V :=
  if bool_decide (key = js "__proto__") then object else <[key := value]> object.

(** ** Data model *)

Module Config.
(** [z.infer<typeof ConfigureArgsSchema>], as stored in the state. *)
Record t := mk {
  endpoint : option jsstring;
  headers : gmap jsstring jsstring;
  timeout : Q;
  maxDepth : Q;
  maxComplexity : Q;
  disabledResolvers : list jsstring;
}.
End Config.

Module EnvConfig.
(** [Partial<z.infer<typeof ConfigureArgsSchema>>]: what
    [loadEnvironmentConfig] returns; [None] is an absent key. *)
Record t := mk {
  endpoint : option jsstring;
  headers : option (gmap jsstring jsstring);
  timeout : option Q;
  maxDepth : option Q;
  maxComplexity : option Q;
  disabledResolvers : option (list jsstring);
}.
End EnvConfig.

Module Args.
(** The arguments of a configure call, before parsing: [None] is a key
    that the caller has not supplied. *)
Record t := mk {
  endpoint : option jsstring;
  headers : option (gmap jsstring jsstring);
  timeout : option Q;
  maxDepth : option Q;
  maxComplexity : option Q;
  disabledResolvers : option (list jsstring);
}.

Definition empty : t := mk None None None None None None.
End Args.

Module ParsedArgs.
(** The result of [ConfigureArgsSchema.parse]: the keys with a
    [.default(...)] are always present, the [.optional()] ones are present
    when supplied. *)
Record t := mk {
  endpoint : option jsstring;
  headers : option (gmap jsstring jsstring);
  timeout : Q;
  maxDepth : Q;
  maxComplexity : Q;
  disabledResolvers : list jsstring;
}.
End ParsedArgs.

Module Env.
(** The process environment, as far as the server reads it. *)
Record t := mk {
  GRAPHQL_ENDPOINT : option jsstring;
  GRAPHQL_TIMEOUT : option jsstring;
  GRAPHQL_MAX_DEPTH : option jsstring;
  GRAPHQL_MAX_COMPLEXITY : option jsstring;
  GRAPHQL_DISABLED_RESOLVERS : option jsstring;
  GRAPHQL_HEADERS : option jsstring;
  GRAPHQL_AUTH_TOKEN : option jsstring;
  GRAPHQL_API_KEY : option jsstring;
}.

Definition empty : t := mk None None None None None None None None.
End Env.

Inductive Kind := SCALAR | OBJECT | INTERFACE | UNION | ENUM | INPUT_OBJECT.

Global Instance Kind_eq_dec : EqDecision Kind.
Proof. solve_decision. Defined.

(** A type reference of an introspection result: [NON_NULL] and [LIST]
    carry [ofType], the other kinds carry [name]. *)
Inductive TypeRef :=
  | NON_NULL (ofType : TypeRef)
  | LIST (ofType : TypeRef)
  | Named (kind : Kind) (name : jsstring) (enumValues : option (list jsstring)).

(** The JSON Schema fragments that [convertGraphQLTypeToJsonSchema] builds. *)
Inductive JsonSchema :=
  | SchemaType (type : jsstring) (description : option jsstring)
  | SchemaArray (items : JsonSchema) (description : option jsstring)
  | SchemaEnum (enum : list jsstring) (description : option jsstring).

Module Arg.
Record t := mk {
  name : jsstring;
  description : option jsstring;
  type : TypeRef;
}.
End Arg.

Module Field.
Record t := mk {
  name : jsstring;
  description : option jsstring;
  args : option (list Arg.t);
  type : TypeRef;
}.
End Field.

Module FullType.
Record t := mk {
  name : jsstring;
  fields : option (list Field.t);
}.
End FullType.

Module Schema.
(** The [__schema] object of an introspection result; [queryType] and
    [mutationType] hold the name of the root type. *)
Record t := mk {
  queryType : option jsstring;
  mutationType : option jsstring;
  types : list FullType.t;
}.
End Schema.

Inductive OperationType := OpQuery | OpMutation.

Global Instance OperationType_eq_dec : EqDecision OperationType.
Proof. solve_decision. Defined.

Module Resolver.
Record t := mk {
  type : OperationType;
  fieldName : jsstring;
  returnType : jsstring;
  args : list Arg.t;
}.
End Resolver.

Module InputSchema.
(** [{ type: 'object', properties, required, additionalProperties: false }] *)
Record t := mk {
  properties : gmap jsstring JsonSchema;
  required : list jsstring;
}.
End InputSchema.

Module Tool.
(** An element of [ServerState['dynamicTools']]. *)
Record t := mk {
  name : jsstring;
  description : jsstring;
  inputSchema : InputSchema.t;
  resolver : Resolver.t;
}.
End Tool.

Module Client.
(** A [GraphQLClient]: the endpoint and the headers it was built with. *)
Record t := mk {
  endpoint : jsstring;
  headers : gmap jsstring jsstring;
}.
End Client.

(** ** Errors *)

Inductive ErrorCode := InvalidParams | InvalidRequest | MethodNotFound | InternalError.

(** The [McpError]s of the server, one constructor per message template,
    with the values that the template interpolates. *)
Inductive McpError :=
  | ComplexityExceeded (complexity : nat) (maxComplexity : Q)
  | DepthExceeded (depth : Z) (maxDepth : Q)
  | ResolverDisabled (resolver : jsstring)
  | UnknownTool (name : jsstring) (available : list jsstring)
  | NotConfigured (endpointInEnvironment : bool)
  | EndpointMissing
  | ConnectFailed (message : jsstring)
  | ToolExecutionFailed (message : jsstring).

Definition errorCode (e : McpError) : ErrorCode :=
  match e with
  | ComplexityExceeded _ _ | DepthExceeded _ _ | ResolverDisabled _ | EndpointMissing => InvalidParams
  | UnknownTool _ _ => MethodNotFound
  | NotConfigured _ => InvalidRequest
  | ConnectFailed _ | ToolExecutionFailed _ => InternalError
  end.

(** What a [throw] carries: an [McpError], the [ZodError] of a failed
    [parse], or another error ([message] is absent when the value thrown is
    not an [Error]). *)
Inductive Exception :=
  | Mcp (e : McpError)
  | ZodError
  | OtherError (message : option jsstring).

Inductive Outcome (A : Type) :=
  | Returned (a : A)
  | Thrown (e : Exception).
Arguments Returned {A} a.
Arguments Thrown {A} e.

(** [error instanceof Error ? error.message : 'Unknown error'] *)
Definition errorMessage (message : option jsstring) : jsstring :=
  default (js "Unknown error") message.

(** ** Server state *)

Module ServerState.
Section WithJson.
Context {Json : Type}.

Record t := mk {
  client : option Client.t;
  endpoint : option jsstring;
  config : option Config.t;
  cachedSchema : option Json;
  schemaTimestamp : Z;
  dynamicTools : list Tool.t;
}.

(** The initial value of the global [state]. *)
Definition initial : t := mk None None None None 0 [].
End WithJson.
Arguments t : clear implicits.
End ServerState.

Module Status.
Record settings := mkSettings {
  maxDepth : Q;
  maxComplexity : Q;
  disabledResolvers : list jsstring;
  timeout : Q;
  headersConfigured : bool;
}.

(** The [status] object of [handleGetStatus]. *)
Record t := mk {
  configured : bool;
  endpoint : option jsstring;
  settings_ : option settings;
  schemaCache : bool;
  cacheAge : option Z;
  cacheTTL : Z;
}.
End Status.

Definition SCHEMA_CACHE_TTL : Z := 5 * 60 * 1000.

(** ** Environment *)

(** [parseInt(s, 10)]: leading white space, an optional sign, then the
    longest run of decimal digits; [None] is [NaN].  (Integers are taken
    exactly; JavaScript rounds those beyond 2^53.) *)
Definition digitValue (c : N) : option Z :=
  if ((48 <=? c) && (c <=? 57))%N then Some (Z.of_N c - 48)%Z else None.

Fixpoint digitsFrom (acc : option Z) (s : jsstring) : option Z :=
  match s with
  | c :: rest =>
      match digitValue c with
      | Some d => digitsFrom (Some (10 * default 0 acc + d)%Z) rest
      | None => acc
      end
  | [] => acc
  end.

Definition parseInt (s : jsstring) : option Z :=
  match trimStart s with
  | 45%N :: rest => Z.opp <$> digitsFrom None rest
  | 43%N :: rest => digitsFrom None rest
  | t => digitsFrom None t
  end.

(** [String.prototype.split] with a separator of one code unit. *)
Fixpoint split (sep : N) (s : jsstring) : list jsstring :=
  match s with
  | [] => [[]]
  | c :: rest =>
      if (c =? sep)%N then [] :: split sep rest
      else match split sep rest with
           | p :: ps => (c :: p) :: ps
           | [] => [[c]]
           end
  end.

(** The numeric variables of [loadEnvironmentConfig]: set only when the
    variable is truthy and [parseInt] does not give [NaN]. *)
Definition envNumber (v : option jsstring) : option Q :=
  if truthy v then inject_Z <$> parseInt (default [] v) else None.

Section Server.
Context {Json : Type}.

(** What the server takes from its platform and its libraries:
    [String.prototype.toLowerCase], the URL check of [z.string().url()],
    [JSON.parse] on the header variable, for a text that parses to an
    object of strings ([None] when it throws),
    [JSON.stringify(_, null, 2)], the [__schema] member of an
    introspection result ([None] when the data is falsy or reading the
    schema from it throws), [getIntrospectionQuery()], and the truth value
    [!!data] of response data. *)
Variable toLowerCase : jsstring -> jsstring.
Variable isUrl : jsstring -> bool.
Variable parseHeaders : jsstring -> option (gmap jsstring jsstring).
Variable stringify : Json -> jsstring.
Variable schemaOf : Json -> option Schema.t.
Variable introspectionQuery : jsstring.
Variable isTruthy : Json -> bool.

(** A request of the GraphQL client either resolves with the response
    data or rejects with an error. *)
Inductive Response :=
  | Resolved (data : Json)
  | Rejected (message : option jsstring).

(** [client.request(query, variables)], as the network answers it. *)
Definition Network := Client.t -> jsstring -> gmap jsstring Json -> Response.

Definition loadEnvironmentConfig (env : Env.t) : EnvConfig.t :=
  let headers0 :=
    if truthy (Env.GRAPHQL_HEADERS env)
    then parseHeaders (default [] (Env.GRAPHQL_HEADERS env))
    else None in
  let headers1 :=
    if truthy (Env.GRAPHQL_AUTH_TOKEN env)
    then Some (<[js "Authorization" := js "Bearer " ++ default [] (Env.GRAPHQL_AUTH_TOKEN env)]>
                 (default ∅ headers0))
    else headers0 in
  let headers2 :=
    if truthy (Env.GRAPHQL_API_KEY env)
    then Some (<[js "X-API-Key" := default [] (Env.GRAPHQL_API_KEY env)]> (default ∅ headers1))
    else headers1 in
  {| EnvConfig.endpoint :=
       if truthy (Env.GRAPHQL_ENDPOINT env) then Env.GRAPHQL_ENDPOINT env else None;
     EnvConfig.headers := headers2;
     EnvConfig.timeout := envNumber (Env.GRAPHQL_TIMEOUT env);
     EnvConfig.maxDepth := envNumber (Env.GRAPHQL_MAX_DEPTH env);
     EnvConfig.maxComplexity := envNumber (Env.GRAPHQL_MAX_COMPLEXITY env);
     EnvConfig.disabledResolvers :=
       if truthy (Env.GRAPHQL_DISABLED_RESOLVERS env)
       then Some (trim <$> split 44 (default [] (Env.GRAPHQL_DISABLED_RESOLVERS env)))
       else None |}.

(** ** TypeMapper *)

Fixpoint convertGraphQLTypeToJsonSchema (gqlType : TypeRef) : JsonSchema :=
  match gqlType with
  | NON_NULL ofType => convertGraphQLTypeToJsonSchema ofType
  | LIST ofType => SchemaArray (convertGraphQLTypeToJsonSchema ofType) None
  | Named SCALAR name _ =>
      if bool_decide (name = js "String") then SchemaType (js "string") None
      else if bool_decide (name = js "Int") then SchemaType (js "integer") None
      else if bool_decide (name = js "Float") then SchemaType (js "number") None
      else if bool_decide (name = js "Boolean") then SchemaType (js "boolean") None
      else if bool_decide (name = js "ID") then SchemaType (js "string") None
      else SchemaType (js "string") None
  | Named ENUM _ enumValues => SchemaEnum (default [] enumValues) None
  | Named _ name _ => SchemaType (js "string") (Some (name ++ js " object"))
  end.

Definition setDescription (d : jsstring) (s : JsonSchema) : JsonSchema :=
  match s with
  | SchemaType t _ => SchemaType t (Some d)
  | SchemaArray i _ => SchemaArray i (Some d)
  | SchemaEnum e _ => SchemaEnum e (Some d)
  end.

Fixpoint getLeafType (type : TypeRef) : TypeRef :=
  match type with
  | NON_NULL ofType | LIST ofType => getLeafType ofType
  | Named _ _ _ => type
  end.

Definition typeName (type : TypeRef) : jsstring :=
  match type with
  | Named _ name _ => name
  | _ => []
  end.

Definition typeKind (type : TypeRef) : option Kind :=
  match type with
  | Named kind _ _ => Some kind
  | _ => None
  end.

Fixpoint getGraphQLTypeString (type : TypeRef) : jsstring :=
  match type with
  | NON_NULL ofType => getGraphQLTypeString ofType ++ js "!"
  | LIST ofType => js "[" ++ getGraphQLTypeString ofType ++ js "]"
  | Named _ name _ => name
  end.

(** ** SafetyGuard *)

(** The loop over [config.disabledResolvers]: the first resolver whose
    lower-cased name the lower-cased text includes. *)
Fixpoint firstDisabled (sanitized : jsstring) (resolvers : list jsstring) : option jsstring :=
  match resolvers with
  | [] => None
  | resolver :: rest =>
      if includes (toLowerCase sanitized) (toLowerCase resolver) then Some resolver
      else firstDisabled sanitized rest
  end.

(** [validateQueryConstraints]: [None] when it returns, the error when it
    throws. *)
Definition validateQueryConstraints (query : jsstring) (config : Config.t) : option McpError :=
  let sanitized := sanitizeQuery query in
  let complexity := calculateQueryComplexity sanitized in
  if exceeds (Z.of_nat complexity) (Config.maxComplexity config)
  then Some (ComplexityExceeded complexity (Config.maxComplexity config))
  else
    let depth := calculateQueryDepth sanitized in
    if exceeds depth (Config.maxDepth config)
    then Some (DepthExceeded depth (Config.maxDepth config))
    else ResolverDisabled <$> firstDisabled sanitized (Config.disabledResolvers config).

(** ** SchemaCatalog *)

(** The loop over [field.args] that fills [properties] and [required]. *)
Definition argStep (acc : gmap jsstring JsonSchema * list jsstring) (arg : Arg.t)
    : gmap jsstring JsonSchema * list jsstring :=
  let '(properties, required) := acc in
  let schema := convertGraphQLTypeToJsonSchema (Arg.type arg) in
  let required :=
    match Arg.type arg with
    | NON_NULL _ => required ++ [Arg.name arg]
    | _ => required
    end in
  let schema :=
    if truthy (Arg.description arg)
    then setDescription (default [] (Arg.description arg)) schema
    else schema in
  (assign (Arg.name arg) schema properties, required).

Definition opPrefix (op : OperationType) : jsstring :=
  match op with OpQuery => js "query_" | OpMutation => js "mutation_" end.

Definition opWord (op : OperationType) : jsstring :=
  match op with OpQuery => js "query" | OpMutation => js "mutation" end.

(** [state.config?.disabledResolvers.includes(name)] *)
Definition isDisabled (config : option Config.t) (name : jsstring) : bool :=
  match config with
  | Some c => bool_decide (name ∈ Config.disabledResolvers c)
  | None => false
  end.

Definition toolOfField (op : OperationType) (field : Field.t) : Tool.t :=
  let '(properties, required) := fold_left argStep (default [] (Field.args field)) (∅, []) in
  {| Tool.name := opPrefix op ++ Field.name field;
     Tool.description :=
       if truthy (Field.description field) then default [] (Field.description field)
       else js "Execute GraphQL " ++ opWord op ++ js ": " ++ Field.name field;
     Tool.inputSchema := {| InputSchema.properties := properties; InputSchema.required := required |};
     Tool.resolver :=
       {| Resolver.type := op;
          Resolver.fieldName := Field.name field;
          Resolver.returnType := orElse (typeName (getLeafType (Field.type field))) (js "Mixed");
          Resolver.args := default [] (Field.args field) |} |}.

(** One iteration of [for (const field of ...fields)]: [continue] on a
    disabled resolver, [tools.push] otherwise.  The source has the loop
    twice, for the Query and for the Mutation type; the two bodies differ
    in the operation type only. *)
Definition fieldStep (config : option Config.t) (op : OperationType)
    (tools : list Tool.t) (field : Field.t) : list Tool.t :=
  if isDisabled config (Field.name field) then tools
  else tools ++ [toolOfField op field].

(** [schemaData.types.find(t => t.name === root.name)?.fields], an absent
    root, type or field list giving no iteration. *)
Definition rootFields (schemaData : Schema.t) (root : option jsstring) : list Field.t :=
  match root with
  | Some name =>
      match List.find (fun t => bool_decide (FullType.name t = name)) (Schema.types schemaData) with
      | Some type => default [] (FullType.fields type)
      | None => []
      end
  | None => []
  end.

Definition createMCPToolsFromSchema (state : ServerState.t Json) (schemaData : Schema.t)
    : list Tool.t :=
  let tools := [] in
  let tools :=
    fold_left (fieldStep (ServerState.config state) OpQuery)
      (rootFields schemaData (Schema.queryType schemaData)) tools in
  let tools :=
    fold_left (fieldStep (ServerState.config state) OpMutation)
      (rootFields schemaData (Schema.mutationType schemaData)) tools in
  tools.

(** ** QuerySynthesizer *)

Definition scalarTypes : list jsstring :=
  [js "String"; js "Int"; js "Float"; js "Boolean"; js "ID"].

Definition selection (names : list jsstring) : jsstring :=
  js " { " ++ join (js " ") names ++ js " }".

Definition getBasicSelectionSet (state : ServerState.t Json) (returnType : jsstring) : jsstring :=
  if bool_decide (returnType ∈ scalarTypes) || bool_decide (returnType = js "Mixed") then []
  else
    let fromSchema :=
      schema ← ServerState.cachedSchema state ≫= schemaOf;
      type ← List.find (fun t => bool_decide (FullType.name t = returnType)) (Schema.types schema);
      fields ← FullType.fields type;
      let scalarFields :=
        Field.name <$>
          take 5 (filter (fun field =>
                    let fieldType := getLeafType (Field.type field) in
                    typeName fieldType ∈ scalarTypes ∨ typeKind fieldType = Some ENUM) fields) in
      if bool_decide (0 < length scalarFields) then Some (selection scalarFields) else None in
    default (selection [js "id"; js "name"; js "code"; js "title"]) fromSchema.

Definition nl : jsstring := [10%N].

(** The loop over [Object.entries(parsedArgs)]. *)
Definition argPair (entry : jsstring * Json) : jsstring :=
  entry.1 ++ js ": $" ++ entry.1.

Definition varPair (tool : Tool.t) (entry : jsstring * Json) : jsstring :=
  let arg := List.find (fun a => bool_decide (Arg.name a = entry.1)) (Resolver.args (Tool.resolver tool)) in
  let gqlType :=
    match arg with
    | Some a => getGraphQLTypeString (Arg.type a)
    | None => js "String"
    end in
  js "$" ++ entry.1 ++ js ": " ++ gqlType.

Definition collectVariables (entries : list (jsstring * Json)) : gmap jsstring Json :=
  fold_left (fun variables entry => assign entry.1 entry.2 variables) entries ∅.

Definition parenthesized (pairs : list jsstring) : jsstring :=
  match pairs with
  | [] => []
  | _ :: _ => js "(" ++ join (js ", ") pairs ++ js ")"
  end.

(** The query text that [handleGraphQLResolver] builds; [entries] is
    [Object.entries(parsedArgs)], empty when the arguments are absent. *)
Definition buildQuery (state : ServerState.t Json) (tool : Tool.t)
    (entries : list (jsstring * Json)) : jsstring :=
  let resolver := Tool.resolver tool in
  let argsString := parenthesized (argPair <$> entries) in
  let variablesString := parenthesized (varPair tool <$> entries) in
  let selectionSet := getBasicSelectionSet state (Resolver.returnType resolver) in
  opWord (Resolver.type resolver) ++ js " " ++ variablesString ++ js " {" ++ nl
    ++ js "    " ++ Resolver.fieldName resolver ++ argsString ++ selectionSet ++ nl
    ++ js "  }".

(** ** Dispatcher *)

(** [ConfigureArgsSchema.parse]: [None] when it throws a [ZodError]. *)
Definition parseConfigureArgs (args : Args.t) : option ParsedArgs.t :=
  let timeout := default (inject_Z 30000) (Args.timeout args) in
  let maxDepth := default (inject_Z 10) (Args.maxDepth args) in
  let maxComplexity := default (inject_Z 100) (Args.maxComplexity args) in
  if match Args.endpoint args with Some e => isUrl e | None => true end
     && inRange 1000 60000 timeout
     && inRange 1 20 maxDepth
     && inRange 1 1000 maxComplexity
  then Some {| ParsedArgs.endpoint := Args.endpoint args;
               ParsedArgs.headers := Args.headers args;
               ParsedArgs.timeout := timeout;
               ParsedArgs.maxDepth := maxDepth;
               ParsedArgs.maxComplexity := maxComplexity;
               ParsedArgs.disabledResolvers := default [] (Args.disabledResolvers args) |}
  else None.

(** An object spread [{ ...lower, ...upper }] at one key: the value of
    [upper] when [upper] has the key. *)
Definition spread {A} (lower upper : option A) : option A :=
  match upper with
  | Some v => Some v
  | None => lower
  end.

(** The same at a key that [upper] always has. *)
Definition spreadOver {A} (lower : option A) (upper : A) : A :=
  default upper (spread lower (Some upper)).

(** [{ ...envConfig, ...parsedArgs, headers: { ...envConfig.headers,
    ...parsedArgs.headers } }] *)
Definition mergeConfig (envConfig : EnvConfig.t) (parsedArgs : ParsedArgs.t) : Config.t :=
  {| Config.endpoint := spread (EnvConfig.endpoint envConfig) (ParsedArgs.endpoint parsedArgs);
     Config.headers :=
       default ∅ (ParsedArgs.headers parsedArgs) ∪ default ∅ (EnvConfig.headers envConfig);
     Config.timeout := spreadOver (EnvConfig.timeout envConfig) (ParsedArgs.timeout parsedArgs);
     Config.maxDepth := spreadOver (EnvConfig.maxDepth envConfig) (ParsedArgs.maxDepth parsedArgs);
     Config.maxComplexity :=
       spreadOver (EnvConfig.maxComplexity envConfig) (ParsedArgs.maxComplexity parsedArgs);
     Config.disabledResolvers :=
       spreadOver (EnvConfig.disabledResolvers envConfig) (ParsedArgs.disabledResolvers parsedArgs) |}.

(** The values that the summary text of [handleConfigureGraphQL]
    interpolates. *)
Record Summary := mkSummary {
  summaryEndpoint : jsstring;
  summaryMaxDepth : Q;
  summaryMaxComplexity : Q;
  summaryDisabledResolvers : jsstring;
  summaryTimeout : Q;
  summaryDynamicTools : nat;
}.

Definition probeQuery : jsstring := js "{ __typename }".

(** [handleConfigureGraphQL]: the outcome and the state it leaves.  [now]
    is what [Date.now()] returns after the introspection. *)
Definition handleConfigureGraphQL (env : Env.t) (network : Network) (now : Z)
    (args : Args.t) (state : ServerState.t Json) : Outcome Summary * ServerState.t Json :=
  let envConfig := loadEnvironmentConfig env in
  match parseConfigureArgs args with
  | None => (Thrown ZodError, state)
  | Some parsedArgs =>
      let config := mergeConfig envConfig parsedArgs in
      if negb (truthy (Config.endpoint config)) then (Thrown (Mcp EndpointMissing), state)
      else
        let endpoint := default [] (Config.endpoint config) in
        let testClient := {| Client.endpoint := endpoint; Client.headers := Config.headers config |} in
        match network testClient probeQuery ∅ with
        | Rejected message => (Thrown (Mcp (ConnectFailed (errorMessage message))), state)
        | Resolved _ =>
            let state :=
              {| ServerState.client := Some testClient;
                 ServerState.endpoint := Config.endpoint config;
                 ServerState.config := Some config;
                 ServerState.cachedSchema := None;
                 ServerState.schemaTimestamp := 0;
                 ServerState.dynamicTools := [] |} in
            let state :=
              match network testClient introspectionQuery ∅ with
              | Resolved schemaResult =>
                  let state :=
                    {| ServerState.client := ServerState.client state;
                       ServerState.endpoint := ServerState.endpoint state;
                       ServerState.config := ServerState.config state;
                       ServerState.cachedSchema := Some schemaResult;
                       ServerState.schemaTimestamp := now;
                       ServerState.dynamicTools := ServerState.dynamicTools state |} in
                  match schemaOf schemaResult with
                  | Some schemaData =>
                      {| ServerState.client := ServerState.client state;
                         ServerState.endpoint := ServerState.endpoint state;
                         ServerState.config := ServerState.config state;
                         ServerState.cachedSchema := ServerState.cachedSchema state;
                         ServerState.schemaTimestamp := ServerState.schemaTimestamp state;
                         ServerState.dynamicTools := createMCPToolsFromSchema state schemaData |}
                  | None => state
                  end
              | Rejected _ => state
              end in
            (Returned
               {| summaryEndpoint := endpoint;
                  summaryMaxDepth := Config.maxDepth config;
                  summaryMaxComplexity := Config.maxComplexity config;
                  summaryDisabledResolvers :=
                    if bool_decide (0 < length (Config.disabledResolvers config))
                    then join (js ", ") (Config.disabledResolvers config)
                    else js "None";
                  summaryTimeout := Config.timeout config;
                  summaryDynamicTools := length (ServerState.dynamicTools state) |},
             state)
        end
  end.

Record ToolResult := mkToolResult {
  text : jsstring;
  isError : bool;
}.

Definition opTitle (op : OperationType) : jsstring :=
  match op with OpQuery => js "Query" | OpMutation => js "Mutation" end.

(** The marks that open the two result texts, as the source file has
    them. *)
Definition okMark : jsstring := [226; 339; 8230]%N.
Definition failMark : jsstring := [226; 338]%N.

Definition successText (state : ServerState.t Json) (resolver : Resolver.t) (result : Json) : jsstring :=
  okMark ++ js " " ++ opTitle (Resolver.type resolver) ++ js " executed: "
    ++ Resolver.fieldName resolver ++ nl ++ nl
    ++ js "Endpoint: " ++ default (js "null") (ServerState.endpoint state) ++ nl ++ nl
    ++ js "Result:" ++ nl ++ stringify result.

Definition failureText (resolver : Resolver.t) (message : jsstring) (query : jsstring) : jsstring :=
  failMark ++ js " " ++ opTitle (Resolver.type resolver) ++ js " failed: "
    ++ Resolver.fieldName resolver ++ nl ++ nl
    ++ js "Error: " ++ message ++ nl ++ nl
    ++ js "Query:" ++ nl ++ query.

(** [handleGraphQLResolver]; [args] is [None] when the call carries no
    arguments, and the list of [Object.entries] otherwise.  The state is
    read only. *)
Definition handleGraphQLResolver (env : Env.t) (network : Network)
    (state : ServerState.t Json) (tool : Tool.t) (args : option (list (jsstring * Json)))
    : Outcome ToolResult :=
  match ServerState.client state, ServerState.config state with
  | Some client, Some config =>
      let entries := default [] args in
      let variables := collectVariables entries in
      let query := buildQuery state tool entries in
      match validateQueryConstraints query config with
      | Some e => Thrown (Mcp e)
      | None =>
          match network client query variables with
          | Resolved result =>
              Returned {| text := successText state (Tool.resolver tool) result; isError := false |}
          | Rejected message =>
              Returned {| text := failureText (Tool.resolver tool) (errorMessage message) query;
                          isError := true |}
          end
      end
  | _, _ =>
      Thrown (Mcp (NotConfigured (bool_decide (is_Some (EnvConfig.endpoint (loadEnvironmentConfig env))))))
  end.

(** The [status] object of [handleGetStatus]; the reply is its JSON text.
    [now] is [Date.now()]. *)
Definition handleGetStatus (now : Z) (state : ServerState.t Json) : Status.t :=
  {| Status.configured := bool_decide (is_Some (ServerState.client state));
     Status.endpoint := ServerState.endpoint state;
     Status.settings_ :=
       (fun config =>
          {| Status.maxDepth := Config.maxDepth config;
             Status.maxComplexity := Config.maxComplexity config;
             Status.disabledResolvers := Config.disabledResolvers config;
             Status.timeout := Config.timeout config;
             Status.headersConfigured := bool_decide (0 < size (Config.headers config)) |})
       <$> ServerState.config state;
     Status.schemaCache := from_option isTruthy false (ServerState.cachedSchema state);
     Status.cacheAge :=
       if from_option isTruthy false (ServerState.cachedSchema state)
       then Some (now - ServerState.schemaTimestamp state)%Z
       else None;
     Status.cacheTTL := SCHEMA_CACHE_TTL |}.

Inductive Reply :=
  | StatusReply (status : Status.t)
  | ResolverReply (result : ToolResult).

(** The [catch] of the tool-call handler: an [McpError] goes through, any
    other error is wrapped. *)
Definition rethrow {A} (o : Outcome A) : Outcome A :=
  match o with
  | Thrown (Mcp e) => Thrown (Mcp e)
  | Thrown ZodError => Thrown (Mcp (ToolExecutionFailed (errorMessage None)))
  | Thrown (OtherError message) => Thrown (Mcp (ToolExecutionFailed (errorMessage message)))
  | Returned a => Returned a
  end.

(** The handler of [CallToolRequestSchema]. *)
Definition callTool (env : Env.t) (network : Network) (now : Z)
    (state : ServerState.t Json) (name : jsstring) (args : option (list (jsstring * Json)))
    : Outcome Reply :=
  rethrow
    (if bool_decide (name = js "get_status") then Returned (StatusReply (handleGetStatus now state))
     else
       match List.find (fun tool => bool_decide (Tool.name tool = name)) (ServerState.dynamicTools state) with
       | Some dynamicTool =>
           match handleGraphQLResolver env network state dynamicTool args with
           | Returned r => Returned (ResolverReply r)
           | Thrown e => Thrown e
           end
       | None =>
           Thrown (Mcp (UnknownTool name
             (js "get_status" :: (Tool.name <$> ServerState.dynamicTools state))))
       end).

(** The handler of [ListToolsRequestSchema]: the names of the tools it
    lists. *)
Definition listTools (state : ServerState.t Json) : list jsstring :=
  js "get_status" :: (Tool.name <$> ServerState.dynamicTools state).
End Server.

Arguments Resolved {Json} data.
Arguments Rejected {Json} message.

(** ** The measures, stated independently of the scanning code *)

Fixpoint skipWhile (p : N -> bool) (s : jsstring) : jsstring :=
  match s with
  | c :: rest => if p c then skipWhile p rest else s
  | [] => []
  end.

(** The text goes on, after optional white space, with [{] or [(]. *)
Definition opensAfterSpace (s : jsstring) : bool :=
  match skipWhile Char.isSpace s with
  | c :: _ => ((c =? Char.lbrace) || (c =? Char.lparen))%N
  | [] => false
  end.

(** The number of word tokens (maximal runs of word characters) that are
    followed, up to white space, by [{] or [(].  [inWord] tells that the
    code unit before the text belongs to a word: a token is counted where it
    starts. *)
Fixpoint wordsBeforeOpener (inWord : bool) (s : jsstring) : nat :=
  match s with
  | [] => 0
  | c :: rest =>
      if Char.isWord c then
        (if negb inWord && opensAfterSpace (skipWhile Char.isWord rest) then 1 else 0)
        + wordsBeforeOpener true rest
      else wordsBeforeOpener false rest
  end.

Definition occurrences (c : N) (s : jsstring) : Z :=
  Z.of_nat (length (filter (fun x => x = c) s)).

(** The brace counter after the first [k] code units of the text. *)
Definition counterAt (s : jsstring) (k : nat) : Z :=
  (occurrences Char.lbrace (take k s) - occurrences Char.rbrace (take k s))%Z.

(** [name] occurs in [text] when case is ignored, for a given lower-casing. *)
Definition occursIgnoringCase (lower : jsstring -> jsstring) (name text : jsstring) : Prop :=
  ∃ before after, lower text = before ++ lower name ++ after.

(** ** Instances for running the server on examples *)

(** [toLowerCase] on code units: exact on texts of ASCII code units. *)
Definition lowerAscii (s : jsstring) : jsstring :=
  (fun c => if ((65 <=? c) && (c <=? 90))%N then (c + 32)%N else c) <$> s.

(** Response data of the examples: an introspection result, other data
    given by its JSON text, or [null]. *)
Inductive SampleJson :=
  | SampleSchema (schemaData : Schema.t)
  | SampleData (jsonText : jsstring)
  | SampleNull.

Definition sampleStringify (j : SampleJson) : jsstring :=
  match j with
  | SampleSchema _ => js "{ __schema }"
  | SampleData t => t
  | SampleNull => js "null"
  end.

Definition sampleSchemaOf (j : SampleJson) : option Schema.t :=
  match j with
  | SampleSchema schemaData => Some schemaData
  | SampleData _ | SampleNull => None
  end.

Definition sampleIsTruthy (j : SampleJson) : bool :=
  match j with
  | SampleNull => false
  | SampleSchema _ | SampleData _ => true
  end.


Definition sampleIsUrl (s : jsstring) : bool := startsWith (js "https://") s.

Definition sampleParseHeaders (s : jsstring) : option (gmap jsstring jsstring) := None.

Definition sampleIntrospectionQuery : jsstring :=
  js "query IntrospectionQuery { __schema { queryType { name } } }".

(** A schema in the shape of the countries API of the examples. *)
Definition countriesEndpoint : jsstring := js "https://countries.trevorblades.com/".

Definition countryType : TypeRef := Named OBJECT (js "Country") None.

Definition countriesField : Field.t :=
  {| Field.name := js "countries"; Field.description := None; Field.args := Some [];
     Field.type := NON_NULL (LIST (NON_NULL countryType)) |}.

Definition countryField : Field.t :=
  {| Field.name := js "country"; Field.description := None;
     Field.args := Some [ {| Arg.name := js "code"; Arg.description := None;
                             Arg.type := NON_NULL (Named SCALAR (js "ID") None) |} ];
     Field.type := countryType |}.

Definition scalarField (name type : jsstring) : Field.t :=
  {| Field.name := name; Field.description := None; Field.args := Some [];
     Field.type := NON_NULL (Named SCALAR type None) |}.

Definition countriesSchema : Schema.t :=
  {| Schema.queryType := Some (js "Query");
     Schema.mutationType := None;
     Schema.types :=
       [ {| FullType.name := js "Query"; FullType.fields := Some [countriesField; countryField] |};
         {| FullType.name := js "Country";
            FullType.fields := Some [ scalarField (js "name") (js "String");
                                      scalarField (js "code") (js "ID");
                                      scalarField (js "emoji") (js "String") ] |} ] |}.

(** A network on which the countries endpoint answers and no other does. *)
Definition sampleNetwork : @Network SampleJson := fun client query variables =>
  if bool_decide (Client.endpoint client = countriesEndpoint) then
    if bool_decide (query = sampleIntrospectionQuery) then Resolved (SampleSchema countriesSchema)
    else Resolved (SampleData (js "{ data }"))
  else Rejected (Some (js "fetch failed")).

(** A network on which the introspection request resolves with [null]. *)
Definition nullIntrospectionNetwork : @Network SampleJson := fun client query variables =>
  if bool_decide (query = sampleIntrospectionQuery) then Resolved SampleNull
  else Resolved (SampleData (js "{ data }")).

Definition sampleConfigure (env : Env.t) (args : Args.t) (state : ServerState.t SampleJson)
    : Outcome Summary * ServerState.t SampleJson :=
  handleConfigureGraphQL sampleIsUrl sampleParseHeaders sampleSchemaOf sampleIntrospectionQuery
    env sampleNetwork 1000 args state.

Definition countriesArgs : Args.t :=
  Args.mk (Some countriesEndpoint) None None None None None.

Definition sampleClient : Client.t :=
  {| Client.endpoint := countriesEndpoint; Client.headers := ∅ |}.

Definition sampleConfig : Config.t :=
  {| Config.endpoint := Some countriesEndpoint; Config.headers := ∅;
     Config.timeout := inject_Z 30000; Config.maxDepth := inject_Z 10;
     Config.maxComplexity := inject_Z 100; Config.disabledResolvers := [] |}.

(** The state after a first, successful configuration. *)
Definition sampleState : ServerState.t SampleJson :=
  {| ServerState.client := Some sampleClient;
     ServerState.endpoint := Some countriesEndpoint;
     ServerState.config := Some sampleConfig;
     ServerState.cachedSchema := Some (SampleSchema countriesSchema);
     ServerState.schemaTimestamp := 1000;
     ServerState.dynamicTools := [toolOfField OpQuery countriesField; toolOfField OpQuery countryField] |}.



(** An environment that sets the endpoint and the three limits. *)
Definition limitsEnv : Env.t :=
  {| Env.GRAPHQL_ENDPOINT := Some countriesEndpoint;
     Env.GRAPHQL_TIMEOUT := Some (js "5000");
     Env.GRAPHQL_MAX_DEPTH := Some (js "5");
     Env.GRAPHQL_MAX_COMPLEXITY := Some (js "50");
     Env.GRAPHQL_DISABLED_RESOLVERS := Some (js "country");
     Env.GRAPHQL_HEADERS := None;
     Env.GRAPHQL_AUTH_TOKEN := Some (js "token");
     Env.GRAPHQL_API_KEY := None |}.

Definition defaultParsedArgs : ParsedArgs.t :=
  {| ParsedArgs.endpoint := None; ParsedArgs.headers := None;
     ParsedArgs.timeout := inject_Z 30000; ParsedArgs.maxDepth := inject_Z 10;
     ParsedArgs.maxComplexity := inject_Z 100; ParsedArgs.disabledResolvers := [] |}.

Definition sampleResolve (state : ServerState.t SampleJson) (tool : Tool.t)
    (args : option (list (jsstring * SampleJson))) : Outcome ToolResult :=
  handleGraphQLResolver lowerAscii sampleParseHeaders sampleStringify sampleSchemaOf
    Env.empty sampleNetwork state tool args.

Definition countriesTool : Tool.t := toolOfField OpQuery countriesField.

Definition countryTool : Tool.t := toolOfField OpQuery countryField.

Definition strictConfig : Config.t :=
  {| Config.endpoint := Some countriesEndpoint; Config.headers := ∅;
     Config.timeout := inject_Z 30000; Config.maxDepth := inject_Z 1;
     Config.maxComplexity := inject_Z 1; Config.disabledResolvers := [] |}.

Definition guardedConfig : Config.t :=
  {| Config.endpoint := Some countriesEndpoint; Config.headers := ∅;
     Config.timeout := inject_Z 30000; Config.maxDepth := inject_Z 10;
     Config.maxComplexity := inject_Z 100; Config.disabledResolvers := [js "Country"] |}.

Definition guardedState : ServerState.t SampleJson :=
  {| ServerState.client := Some sampleClient;
     ServerState.endpoint := Some countriesEndpoint;
     ServerState.config :=
       Some {| Config.endpoint := Some countriesEndpoint; Config.headers := ∅;
               Config.timeout := inject_Z 30000; Config.maxDepth := inject_Z 10;
               Config.maxComplexity := inject_Z 100;
               Config.disabledResolvers := [js "country"; js "Countries"] |};
     ServerState.cachedSchema := None;
     ServerState.schemaTimestamp := 0;
     ServerState.dynamicTools := [] |}.

Definition listOfStrings (kind : Kind) (enumValues : option (list jsstring)) : TypeRef :=
  NON_NULL (LIST (NON_NULL (Named kind (js "String") enumValues))).

Definition orderedConfig : Config.t :=
  {| Config.endpoint := Some countriesEndpoint; Config.headers := ∅;
     Config.timeout := inject_Z 30000; Config.maxDepth := inject_Z 10;
     Config.maxComplexity := inject_Z 100;
     Config.disabledResolvers := [js "users"; js "Country"; js "count"] |}.

Definition emptyNameConfig : Config.t :=
  {| Config.endpoint := Some countriesEndpoint; Config.headers := ∅;
     Config.timeout := inject_Z 30000; Config.maxDepth := inject_Z 10;
     Config.maxComplexity := inject_Z 100;
     Config.disabledResolvers := [js "admin"; []] |}.

Definition resolversEnv : Env.t :=
  {| Env.GRAPHQL_ENDPOINT := None; Env.GRAPHQL_TIMEOUT := None;
     Env.GRAPHQL_MAX_DEPTH := None; Env.GRAPHQL_MAX_COMPLEXITY := None;
     Env.GRAPHQL_DISABLED_RESOLVERS := Some (js "user, adminMutation ,");
     Env.GRAPHQL_HEADERS := None; Env.GRAPHQL_AUTH_TOKEN := None;
     Env.GRAPHQL_API_KEY := None |}.

(** A text without braces and without the characters that open a comment. *)
Definition plain (s : jsstring) : Prop :=
  Forall (fun c => c ≠ Char.lbrace ∧ c ≠ Char.rbrace ∧ c ≠ Char.slash ∧ c ≠ Char.hash) s.

(** A network on which every request fails. *)
Definition deadNetwork : @Network SampleJson := fun client query variables => Rejected None.

(** ** Start-up *)

Section Startup.
Context {Json : Type}.
Variable isUrl : jsstring -> bool.
Variable parseHeaders : jsstring -> option (gmap jsstring jsstring).
Variable schemaOf : Json -> option Schema.t.
Variable introspectionQuery : jsstring.

End Startup.

(** ** Measures of type references and schemas, for the statements *)

(** The type reference without its [NON_NULL] wrappers, at every depth. *)
Fixpoint stripNonNull (t : TypeRef) : TypeRef :=
  match t with
  | NON_NULL ofType => stripNonNull ofType
  | LIST ofType => LIST (stripNonNull ofType)
  | Named _ _ _ => t
  end.

(** The wrappers and the name of a type reference, without what an
    introspection result says about the named type besides. *)
Fixpoint wrappersAndName (t : TypeRef) : TypeRef :=
  match t with
  | NON_NULL ofType => NON_NULL (wrappersAndName ofType)
  | LIST ofType => LIST (wrappersAndName ofType)
  | Named _ name _ => Named SCALAR name None
  end.

Definition isNonNull (t : TypeRef) : bool :=
  match t with
  | NON_NULL _ => true
  | _ => false
  end.

(** The [type] member of the innermost [items] of a JSON Schema fragment. *)
Fixpoint itemType (s : JsonSchema) : jsstring :=
  match s with
  | SchemaType type _ => type
  | SchemaArray items _ => itemType items
  | SchemaEnum _ _ => js "string"
  end.

(** The number of [LIST] wrappers of a type reference, and of array levels of
    a JSON Schema fragment. *)
Fixpoint listDepth (t : TypeRef) : nat :=
  match t with
  | NON_NULL ofType => listDepth ofType
  | LIST ofType => S (listDepth ofType)
  | Named _ _ _ => 0
  end.

Fixpoint arrayDepth (s : JsonSchema) : nat :=
  match s with
  | SchemaArray items _ => S (arrayDepth items)
  | _ => 0
  end.

(** ** Auxiliary measures used in the proofs *)

(** The length of the longest run of [p] at the head of the text. *)
Fixpoint runLength (p : N -> bool) (s : jsstring) : nat :=
  match s with
  | c :: rest => if p c then S (runLength p rest) else 0
  | [] => 0
  end.

(** What a code unit adds to the brace counter. *)
Definition braceStep (c : N) : Z :=
  if (c =? Char.lbrace)%N then 1 else if (c =? Char.rbrace)%N then -1 else 0.

(** The highest value of the brace counter over the prefixes of the text. *)
Fixpoint prefixPeak (s : jsstring) : Z :=
  match s with
  | [] => 0
  | c :: rest => Z.max 0 (braceStep c + prefixPeak rest)
  end.

(** The text does not start with white space. *)
Definition headTidy (s : jsstring) : Prop :=
  match s with
  | c :: _ => Char.isSpace c = false
  | [] => True
  end.

(** Every white space of the text is a single space character. *)
Fixpoint singleSpaced (s : jsstring) : Prop :=
  match s with
  | [] => True
  | c :: rest => (Char.isSpace c = true → c = Char.space ∧ headTidy rest) ∧ singleSpaced rest
  end.

(** * Properties *)

(** ** The measures on examples *)

Example sanitize_ex :
  sanitizeQuery (js "  query /* c */ {  a # tail
  b }  ") = js "query { a b }".
Proof. vm_compute. reflexivity. Qed.

Example cx_ex1 : calculateQueryComplexity (js "{ countries { name code emoji } }") = 1.
Proof. vm_compute. reflexivity. Qed.

Example cx_ex2 : calculateQueryComplexity (js "query ($id: ID) { country(code: $id) { name } }") = 2.
Proof. vm_compute. reflexivity. Qed.

Example depth_ex : calculateQueryDepth (js "{ a { b { c } } }") = 3%Z.
Proof. vm_compute. reflexivity. Qed.

(** ** Regular expressions *)

Lemma replaceAllFrom_skip re repl n s :
  replaceAllFrom re repl n s = replaceAllFrom re repl 0 (drop n s).
Proof.
  revert n; induction s as [|c s IH]; intros [|n]; simpl; try reflexivity.
  - rewrite IH. by destruct n, s.
Qed.

Lemma countMatchesFrom_skip re n s :
  countMatchesFrom re n s = countMatchesFrom re 0 (drop n s).
Proof.
  revert n; induction s as [|c s IH]; intros [|n]; simpl; try reflexivity.
  apply IH.
Qed.

Lemma replaceAll_cons re repl c s :
  replaceAll re repl (c :: s) =
  match re (c :: s) with
  | Some (S m) => repl ++ replaceAll re repl (drop m s)
  | _ => c :: replaceAll re repl s
  end.
Proof.
  unfold replaceAll; simpl. destruct (re (c :: s)) as [[|m]|]; try reflexivity.
  by rewrite replaceAllFrom_skip.
Qed.

Lemma countMatches_cons re c s :
  countMatches re (c :: s) =
  match re (c :: s) with
  | Some (S m) => S (countMatches re (drop m s))
  | _ => countMatches re s
  end.
Proof.
  unfold countMatches; simpl. destruct (re (c :: s)) as [[|m]|]; try reflexivity.
  by rewrite countMatchesFrom_skip.
Qed.

Lemma drop_runLength p s : drop (runLength p s) s = skipWhile p s.
Proof. induction s as [|c s IH]; simpl; [done|]. by destruct (p c). Qed.

Lemma greedyStar_always p s : greedyStar p (fun _ => true) s = Some (runLength p s).
Proof.
  induction s as [|c s IH]; simpl; [done|]. rewrite IH. by destruct (p c).
Qed.

(** A greedy star whose continuation fails on every text that goes on with
    a [p]: backtracking never helps, only the longest run can match. *)
Lemma greedyStar_longest p k s :
  (∀ c t, p c = true → k (c :: t) = false) →
  greedyStar p k s = if k (skipWhile p s) then Some (runLength p s) else None.
Proof.
  intros Hk. induction s as [|c s IH]; simpl; [by destruct (k [])|].
  destruct (p c) eqn:Hp; [|by destruct (k (c :: s))].
  rewrite IH. destruct (k (skipWhile p s)); [done|]. by rewrite Hk.
Qed.

Ltac char_class :=
  repeat match goal with
  | H : _ = true |- _ =>
      rewrite ?orb_true_iff, ?andb_true_iff, ?N.leb_le, ?N.eqb_eq, ?negb_true_iff,
        ?orb_false_iff, ?N.eqb_neq in H
  end;
  try (apply not_true_is_false; intros ?);
  repeat match goal with
  | H : _ = true |- _ =>
      rewrite ?orb_true_iff, ?andb_true_iff, ?N.leb_le, ?N.eqb_eq in H
  end;
  lia.

Lemma isSpace_not_opener c :
  Char.isSpace c = true → ((c =? Char.lbrace) || (c =? Char.lparen))%N = false.
Proof. unfold Char.isSpace, Char.lbrace, Char.lparen. intros H. char_class. Qed.

Lemma isWord_not_space c : Char.isWord c = true → Char.isSpace c = false.
Proof. unfold Char.isWord, Char.isSpace. intros H. char_class. Qed.

Lemma isWord_not_opener c :
  Char.isWord c = true → ((c =? Char.lbrace) || (c =? Char.lparen))%N = false.
Proof. unfold Char.isWord, Char.lbrace, Char.lparen. intros H. char_class. Qed.

Lemma openerAhead_spec s : openerAhead s = opensAfterSpace s.
Proof.
  unfold openerAhead, opensAfterSpace. rewrite greedyStar_longest.
  - destruct (skipWhile Char.isSpace s) as [|c t]; [done|].
    destruct ((c =? Char.lbrace) || (c =? Char.lparen))%N; by vm_compute.
  - intros c t Hc. by apply isSpace_not_opener.
Qed.

Lemma openerAhead_word c t : Char.isWord c = true → openerAhead (c :: t) = false.
Proof.
  intros Hc. rewrite openerAhead_spec. unfold opensAfterSpace. simpl.
  rewrite (isWord_not_space c Hc). by apply isWord_not_opener.
Qed.

Lemma reFieldBeforeOpener_cons c s :
  reFieldBeforeOpener (c :: s) =
  if Char.isWord c && opensAfterSpace (skipWhile Char.isWord s)
  then Some (S (runLength Char.isWord s)) else None.
Proof.
  unfold reFieldBeforeOpener, greedyPlus. destruct (Char.isWord c); [|done].
  rewrite greedyStar_longest by apply openerAhead_word.
  rewrite openerAhead_spec. by destruct (opensAfterSpace _).
Qed.

Lemma complexity_is_token_count s :
  countMatches reFieldBeforeOpener s = wordsBeforeOpener false s
  ∧ (opensAfterSpace (skipWhile Char.isWord s) = false →
     countMatches reFieldBeforeOpener s = wordsBeforeOpener true s)
  ∧ countMatches reFieldBeforeOpener (skipWhile Char.isWord s) = wordsBeforeOpener true s.
Proof.
  induction s as [|c s (IHa & IHb & IHc)]; [done|].
  rewrite countMatches_cons, reFieldBeforeOpener_cons. simpl.
  destruct (Char.isWord c) eqn:Hc; simpl.
  - split_and!.
    + destruct (opensAfterSpace (skipWhile Char.isWord s)) eqn:Ho.
      * by rewrite drop_runLength, IHc.
      * by rewrite IHb.
    + intros Ho. rewrite Ho. by apply IHb.
    + done.
  - split_and!; try done.
    rewrite countMatches_cons, reFieldBeforeOpener_cons, Hc. done.
Qed.

(** ** Depth *)

Lemma counterAt_0 s : counterAt s 0 = 0%Z.
Proof. unfold counterAt. by rewrite take_0. Qed.

Lemma counterAt_nil k : counterAt [] k = 0%Z.
Proof. unfold counterAt. by rewrite take_nil. Qed.

Lemma occurrences_cons c x s :
  occurrences c (x :: s) = ((if (x =? c)%N then 1 else 0) + occurrences c s)%Z.
Proof.
  unfold occurrences. rewrite filter_cons.
  destruct (N.eqb_spec x c) as [->|Hne].
  - rewrite decide_True by done. simpl length. lia.
  - rewrite decide_False by done. lia.
Qed.

Lemma counterAt_cons c s k : counterAt (c :: s) (S k) = (braceStep c + counterAt s k)%Z.
Proof.
  unfold counterAt, braceStep.
  change (take (S k) (c :: s)) with (c :: take k s). rewrite !occurrences_cons.
  destruct (N.eqb_spec c Char.lbrace) as [->|]; [vm_compute (Char.lbrace =? Char.rbrace)%N; cbv iota; lia|].
  destruct (N.eqb_spec c Char.rbrace); lia.
Qed.

Lemma prefixPeak_nonneg s : (0 <= prefixPeak s)%Z.
Proof. destruct s; simpl; lia. Qed.

Lemma prefixPeak_bound s k : (counterAt s k <= prefixPeak s)%Z.
Proof.
  revert k; induction s as [|c s IH]; intros k.
  - rewrite counterAt_nil. done.
  - destruct k as [|k]; [rewrite counterAt_0; apply prefixPeak_nonneg|].
    rewrite counterAt_cons. simpl. specialize (IH k). lia.
Qed.

Lemma prefixPeak_attained s : ∃ k, k <= length s ∧ counterAt s k = prefixPeak s.
Proof.
  induction s as [|c s (k & Hk & IH)].
  - exists 0. by rewrite counterAt_0.
  - simpl prefixPeak. destruct (Z.max_spec 0 (braceStep c + prefixPeak s)) as [[_ ->]|[_ ->]].
    + exists (S k). rewrite counterAt_cons, IH. simpl. split; [lia|done].
    + exists 0. rewrite counterAt_0. split; [lia|done].
Qed.

Lemma depthLoop_peak s : ∀ depth maxDepth,
  (depth <= maxDepth)%Z →
  depthLoop depth maxDepth s = Z.max maxDepth (depth + prefixPeak s).
Proof.
  induction s as [|c s IH]; intros d m Hdm; simpl.
  - lia.
  - pose proof (prefixPeak_nonneg s). unfold braceStep.
    destruct (c =? Char.lbrace)%N.
    + rewrite IH by lia. lia.
    + destruct (c =? Char.rbrace)%N; rewrite IH by lia; lia.
Qed.

Lemma calculateQueryDepth_peak s : calculateQueryDepth s = prefixPeak s.
Proof.
  unfold calculateQueryDepth. rewrite depthLoop_peak by done.
  pose proof (prefixPeak_nonneg s). lia.
Qed.

(** ** Sanitization *)

(** Induction for scans that go on after a match: the property may be
    assumed of every text that is left after dropping code units. *)
Lemma drop_induction (P : jsstring → Prop) :
  P [] → (∀ c s, (∀ m, P (drop m s)) → P (c :: s)) → ∀ s, P s.
Proof.
  intros Hnil Hcons s. cut (∀ m, P (drop m s)); [intros H; apply (H 0)|].
  induction s as [|c s IH]; intros m.
  - by rewrite drop_nil.
  - destruct m as [|m]; [apply Hcons, IH|apply IH].
Qed.

Lemma reLineComment_cons c s :
  reLineComment (c :: s) =
  if (c =? Char.hash)%N then Some (S (runLength Char.notLineBreak s)) else None.
Proof. unfold reLineComment. rewrite greedyStar_always. by destruct (c =? Char.hash)%N. Qed.

Lemma reWhitespace_cons c s :
  reWhitespace (c :: s) =
  if Char.isSpace c then Some (S (runLength Char.isSpace s)) else None.
Proof.
  unfold reWhitespace, greedyPlus. rewrite greedyStar_always. by destruct (Char.isSpace c).
Qed.

Lemma removeLineComments_cons c s :
  removeLineComments (c :: s) =
  if (c =? Char.hash)%N then removeLineComments (skipWhile Char.notLineBreak s)
  else c :: removeLineComments s.
Proof.
  unfold removeLineComments. rewrite replaceAll_cons, reLineComment_cons.
  destruct (c =? Char.hash)%N; [|done]. by rewrite drop_runLength.
Qed.

Lemma normalizeWhitespace_cons c s :
  normalizeWhitespace (c :: s) =
  if Char.isSpace c then Char.space :: normalizeWhitespace (skipWhile Char.isSpace s)
  else c :: normalizeWhitespace s.
Proof.
  unfold normalizeWhitespace. rewrite replaceAll_cons, reWhitespace_cons.
  destruct (Char.isSpace c); [|done]. by rewrite drop_runLength.
Qed.

Lemma removeLineComments_no_hash s : Forall (fun c => c ≠ Char.hash) (removeLineComments s).
Proof.
  induction s as [|c s IH] using drop_induction; [by constructor|].
  rewrite removeLineComments_cons. destruct (N.eqb_spec c Char.hash) as [->|Hc].
  - rewrite <- drop_runLength. apply IH.
  - constructor; [done|]. apply (IH 0).
Qed.

Lemma removeLineComments_id s : Forall (fun c => c ≠ Char.hash) s → removeLineComments s = s.
Proof.
  induction 1 as [|c s Hc _ IH]; [done|].
  rewrite removeLineComments_cons. destruct (N.eqb_spec c Char.hash); [done|]. by rewrite IH.
Qed.

Lemma skipWhile_headTidy s : headTidy (skipWhile Char.isSpace s).
Proof. induction s as [|c s IH]; simpl; [done|]. by destruct (Char.isSpace c) eqn:Hc. Qed.

Lemma normalizeWhitespace_headTidy s : headTidy s → headTidy (normalizeWhitespace s).
Proof.
  destruct s as [|c s]; [done|]. simpl. intros Hc.
  rewrite normalizeWhitespace_cons, Hc. done.
Qed.

Lemma normalizeWhitespace_singleSpaced s : singleSpaced (normalizeWhitespace s).
Proof.
  induction s as [|c s IH] using drop_induction; [done|].
  rewrite normalizeWhitespace_cons. destruct (Char.isSpace c) eqn:Hc.
  - rewrite <- drop_runLength. split; [|apply IH].
    intros _. split; [done|]. rewrite drop_runLength.
    apply normalizeWhitespace_headTidy, skipWhile_headTidy.
  - split; [by rewrite Hc|apply (IH 0)].
Qed.

Lemma normalizeWhitespace_no_hash s :
  Forall (fun c => c ≠ Char.hash) s → Forall (fun c => c ≠ Char.hash) (normalizeWhitespace s).
Proof.
  induction s as [|c s IH] using drop_induction; [done|].
  intros Hs. rewrite normalizeWhitespace_cons. destruct (Char.isSpace c).
  - constructor; [done|]. rewrite <- drop_runLength. apply IH.
    apply Forall_drop. by inversion Hs.
  - inversion Hs; subst. constructor; [done|]. by apply (IH 0).
Qed.

Lemma normalizeWhitespace_id s : singleSpaced s → normalizeWhitespace s = s.
Proof.
  induction s as [|c s IH]; [done|]. intros [Hc Hs].
  rewrite normalizeWhitespace_cons. destruct (Char.isSpace c) eqn:Hsp.
  - destruct (Hc eq_refl) as [-> Hhead]. f_equal.
    destruct s as [|c' s']; [done|]. simpl in Hhead. simpl. rewrite Hhead. by apply IH.
  - f_equal. by apply IH.
Qed.

Lemma trimStart_suffix s : ∃ w, s = w ++ trimStart s.
Proof.
  induction s as [|c s [w Hw]]; [by exists []|]. simpl.
  destruct (Char.isSpace c); [|by exists []].
  exists (c :: w). simpl. by f_equal.
Qed.

Lemma trimEnd_prefix s : ∃ w, s = trimEnd s ++ w.
Proof.
  unfold trimEnd. destruct (trimStart_suffix (rev s)) as [w Hw].
  exists (rev w). rewrite <- rev_app_distr, <- Hw. by rewrite rev_involutive.
Qed.

Lemma trimStart_headTidy s : headTidy (trimStart s).
Proof. induction s as [|c s IH]; simpl; [done|]. by destruct (Char.isSpace c) eqn:Hc. Qed.

Lemma trimStart_id s : headTidy s → trimStart s = s.
Proof. destruct s as [|c s]; [done|]. simpl. by intros ->. Qed.

Lemma trimEnd_headTidy s : headTidy s → headTidy (trimEnd s).
Proof.
  destruct (trimEnd_prefix s) as [w Hw]. destruct (trimEnd s) as [|c t]; [done|].
  rewrite Hw. done.
Qed.

Lemma trim_tidy s : headTidy (trim s) ∧ headTidy (rev (trim s)).
Proof.
  unfold trim. split.
  - apply trimEnd_headTidy, trimStart_headTidy.
  - unfold trimEnd. rewrite rev_involutive. apply trimStart_headTidy.
Qed.

Lemma trim_id s : headTidy s → headTidy (rev s) → trim s = s.
Proof.
  intros H1 H2. unfold trim, trimEnd. rewrite (trimStart_id s H1), (trimStart_id _ H2).
  apply rev_involutive.
Qed.

Lemma trim_infix s : ∃ w1 w2, s = w1 ++ trim s ++ w2.
Proof.
  unfold trim. destruct (trimStart_suffix s) as [w1 H1].
  destruct (trimEnd_prefix (trimStart s)) as [w2 H2].
  exists w1, w2. by rewrite <- H2.
Qed.

Lemma singleSpaced_suffix w s : singleSpaced (w ++ s) → singleSpaced s.
Proof. induction w as [|c w IH]; [done|]. intros [_ H]. by apply IH. Qed.

Lemma singleSpaced_prefix s w : singleSpaced (s ++ w) → singleSpaced s.
Proof.
  induction s as [|c s IH]; [done|]. simpl. intros [Hc Hs]. split; [|by apply IH].
  intros Hsp. destruct (Hc Hsp) as [-> Hh]. split; [done|]. by destruct s.
Qed.

(** What one pass of [sanitizeQuery] establishes. *)
Lemma sanitizeQuery_tidy s :
  Forall (fun c => c ≠ Char.hash) (sanitizeQuery s)
  ∧ singleSpaced (sanitizeQuery s)
  ∧ headTidy (sanitizeQuery s) ∧ headTidy (rev (sanitizeQuery s)).
Proof.
  unfold sanitizeQuery.
  set (t := normalizeWhitespace (removeLineComments (removeBlockComments s))).
  assert (Forall (fun c => c ≠ Char.hash) t) as Hh
    by apply normalizeWhitespace_no_hash, removeLineComments_no_hash.
  assert (singleSpaced t) as Hs by apply normalizeWhitespace_singleSpaced.
  destruct (trim_infix t) as (w1 & w2 & Ht). split_and!.
  - rewrite Ht in Hh. by apply Forall_app in Hh as [_ [Hh _]%Forall_app].
  - rewrite Ht in Hs. by apply singleSpaced_suffix, singleSpaced_prefix in Hs.
  - apply trim_tidy.
  - apply trim_tidy.
Qed.

(** A pass on a text that is already tidy only removes block comments. *)
Lemma sanitizeQuery_on_tidy t :
  Forall (fun c => c ≠ Char.hash) t → singleSpaced t → headTidy t → headTidy (rev t) →
  removeBlockComments t = t → sanitizeQuery t = t.
Proof.
  intros Hh Hs H1 H2 Hb. unfold sanitizeQuery.
  rewrite Hb, (removeLineComments_id t Hh), (normalizeWhitespace_id t Hs). by apply trim_id.
Qed.

Lemma replaceAll_length re repl s :
  length repl <= 1 → length (replaceAll re repl s) <= length s.
Proof.
  intros Hr. induction s as [|c s IH] using drop_induction; [done|].
  rewrite replaceAll_cons. destruct (re (c :: s)) as [[|m]|]; simpl.
  - specialize (IH 0). rewrite drop_0 in IH. lia.
  - rewrite length_app. specialize (IH m). rewrite length_drop in IH. lia.
  - specialize (IH 0). rewrite drop_0 in IH. lia.
Qed.

Lemma removeBlockComments_fixed s :
  length (removeBlockComments s) = length s → removeBlockComments s = s.
Proof.
  unfold removeBlockComments. induction s as [|c s IH]; [done|].
  rewrite replaceAll_cons. destruct (reBlockComment (c :: s)) as [[|m]|]; simpl.
  - intros [= H]. by rewrite IH.
  - intros H. pose proof (replaceAll_length reBlockComment [] (drop m s)) as Hl.
    rewrite length_drop in Hl. simpl in Hl. lia.
  - intros [= H]. by rewrite IH.
Qed.

Lemma trim_length s : length (trim s) <= length s.
Proof.
  destruct (trim_infix s) as (w1 & w2 & H). rewrite H at 2. rewrite !length_app. lia.
Qed.

Lemma sanitizeQuery_length s : length (sanitizeQuery s) <= length (removeBlockComments s).
Proof.
  unfold sanitizeQuery. etrans; [apply trim_length|].
  etrans; [apply replaceAll_length; simpl; lia|]. apply replaceAll_length. simpl. lia.
Qed.

(** ** Substrings *)

Lemma startsWith_spec needle hay :
  startsWith needle hay = true ↔ ∃ after, hay = needle ++ after.
Proof.
  revert hay; induction needle as [|a needle IH]; intros hay; simpl.
  - split; [intros _; by exists hay|done].
  - destruct hay as [|b hay]; [split; [done|intros [? [=]]]|].
    rewrite andb_true_iff, N.eqb_eq, IH. split.
    + intros [-> [after ->]]. by exists after.
    + intros [after [= -> ->]]. split; [done|by exists after].
Qed.

Lemma includes_spec hay needle :
  includes hay needle = true ↔ ∃ before after, hay = before ++ needle ++ after.
Proof.
  induction hay as [|b hay IH]; simpl.
  - rewrite orb_false_r, startsWith_spec. split.
    + intros [after H]. by exists [], after.
    + intros (before & after & H). destruct before; [by exists after|done].
  - rewrite orb_true_iff, startsWith_spec, IH. split.
    + intros [[after H]|(before & after & ->)]; [by exists [], after|by exists (b :: before), after].
    + intros (before & after & H). destruct before as [|b' before].
      * left. by exists after.
      * right. injection H as -> ->. by exists before, after.
Qed.

Lemma join_includes sep parts part : part ∈ parts → includes (join sep parts) part = true.
Proof.
  induction parts as [|p ps IH]; [by intros ?%elem_of_nil|].
  intros [->|Hin]%elem_of_cons; apply includes_spec.
  - destruct ps as [|q ps]; simpl.
    + exists [], []. by rewrite app_nil_r.
    + by exists [], (sep ++ join sep (q :: ps)).
  - destruct ps as [|q ps]; [by apply elem_of_nil in Hin|].
    apply IH, includes_spec in Hin as (before & after & Hj).
    change (join sep (p :: q :: ps)) with (p ++ sep ++ join sep (q :: ps)).
    rewrite Hj. exists (p ++ sep ++ before), after. by rewrite <- !app_assoc.
Qed.

(** ** Limits *)

Lemma exceeds_spec score limit : exceeds score limit = true ↔ (limit < inject_Z score)%Q.
Proof.
  unfold exceeds. rewrite negb_true_iff, <- not_true_iff_false, Qle_bool_iff.
  split; [apply Qnot_le_lt|apply Qlt_not_le].
Qed.

Lemma exceeds_false score limit : exceeds score limit = false ↔ (inject_Z score <= limit)%Q.
Proof. unfold exceeds. by rewrite negb_false_iff, Qle_bool_iff. Qed.


Lemma find_no_match {A} (f : A → bool) (l : list A) :
  (∀ x, x ∈ l → f x = false) → List.find f l = None.
Proof.
  induction l as [|x l IH]; [done|]. intros H. simpl.
  rewrite (H x) by left. apply IH. intros y Hy. apply H. by right.
Qed.

Lemma includes_within before hay after needle :
  includes hay needle = true → includes (before ++ hay ++ after) needle = true.
Proof.
  intros (b & a & ->)%includes_spec. apply includes_spec.
  exists (before ++ b), (a ++ after). by rewrite <- !app_assoc.
Qed.

Lemma includes_after before hay needle :
  includes hay needle = true → includes (before ++ hay) needle = true.
Proof.
  intros (b & a & ->)%includes_spec. apply includes_spec.
  exists (before ++ b), a. by rewrite <- !app_assoc.
Qed.



Lemma parenthesized_includes pairs pair :
  pair ∈ pairs → includes (parenthesized pairs) pair = true.
Proof.
  intros Hin. destruct pairs as [|p ps]; [by apply elem_of_nil in Hin|].
  unfold parenthesized. apply includes_within. by apply join_includes.
Qed.

Lemma fold_fieldStep config op fields tools :
  fold_left (fieldStep config op) fields tools =
  tools ++ (toolOfField op <$> filter (fun f => isDisabled config (Field.name f) = false) fields).
Proof.
  revert tools; induction fields as [|f fields IH]; intros tools; simpl.
  - by rewrite app_nil_r.
  - rewrite IH, filter_cons. unfold fieldStep.
    destruct (isDisabled config (Field.name f)) eqn:Hd.
    + by rewrite decide_False.
    + rewrite decide_True by done. by rewrite fmap_cons, <- app_assoc.
Qed.

Lemma assign_lookup_ne {V} (key key' : jsstring) (value : V) (object : gmap jsstring V) :
  key ≠ key' → assign key value object !! key' = object !! key'.
Proof. intros Hne. unfold assign. case_bool_decide; [done|]. by rewrite lookup_insert_ne. Qed.

Lemma assign_lookup_eq {V} (key : jsstring) (value : V) (object : gmap jsstring V) :
  key ≠ js "__proto__" → assign key value object !! key = Some value.
Proof. intros Hne. unfold assign. rewrite bool_decide_eq_false_2 by done. apply lookup_insert_eq. Qed.

Lemma assign_lookup_proto {V} (key : jsstring) (value : V) (object : gmap jsstring V) :
  assign key value object !! js "__proto__" = object !! js "__proto__".
Proof.
  unfold assign. case_bool_decide as Hk; [done|]. by rewrite lookup_insert_ne.
Qed.

Section Properties.
Context {Json : Type}.
Variable toLowerCase : jsstring -> jsstring.
Variable isUrl : jsstring -> bool.
Variable parseHeaders : jsstring -> option (gmap jsstring jsstring).
Variable stringify : Json -> jsstring.
Variable schemaOf : Json -> option Schema.t.
Variable introspectionQuery : jsstring.
Variable isTruthy : Json -> bool.

Lemma firstDisabled_Some sanitized resolvers r :
  firstDisabled toLowerCase sanitized resolvers = Some r →
  r ∈ resolvers ∧ occursIgnoringCase toLowerCase r sanitized.
Proof.
  induction resolvers as [|r' rs IH]; simpl; [done|].
  destruct (includes _ _) eqn:Hi.
  - intros [= <-]. split; [by left|]. by apply includes_spec.
  - intros [Hin Ho]%IH. split; [by right|done].
Qed.

Lemma firstDisabled_None sanitized resolvers :
  firstDisabled toLowerCase sanitized resolvers = None →
  ∀ r, r ∈ resolvers → ¬ occursIgnoringCase toLowerCase r sanitized.
Proof.
  induction resolvers as [|r' rs IH]; simpl; [by intros _ r ?%elem_of_nil|].
  destruct (includes _ _) eqn:Hi; [done|].
  intros Hn r [->|Hin]%elem_of_cons.
  - intros Ho%includes_spec. congruence.
  - by apply IH.
Qed.

(** ** SafetyGuard *)

(** C5: the complexity score of a text is the number of its word tokens
    that are followed, up to white space, by [{] or [(]; the text
    [{ countries { name code emoji } }] scores 1; and
    [validateQueryConstraints] throws the complexity error exactly when
    the score of the sanitized text is greater than [maxComplexity]. *)
Theorem complexity_score_and_limit :
  (∀ query, calculateQueryComplexity query = wordsBeforeOpener false query)
  ∧ calculateQueryComplexity (js "{ countries { name code emoji } }") = 1
  ∧ (∀ query config,
       (∃ c m, validateQueryConstraints toLowerCase query config = Some (ComplexityExceeded c m))
       ↔ (Config.maxComplexity config
            < inject_Z (Z.of_nat (calculateQueryComplexity (sanitizeQuery query))))%Q).
Proof.
  split_and!.
  - intros query. apply complexity_is_token_count.
  - by vm_compute.
  - intros query config. unfold validateQueryConstraints. rewrite <- exceeds_spec.
    destruct (exceeds (Z.of_nat _) _) eqn:Hc.
    + split; [done|]. intros _. by eexists _, _.
    + split; [|done]. intros (c & m & H).
      destruct (exceeds (calculateQueryDepth _) _); [done|].
      by destruct (firstDisabled _ _ _).
Qed.

(** C6, as amended: the depth score is defined on every text, unmatched
    braces included, and is the highest value that the brace counter takes
    while the text is read from left to right; [{ a { b { c } } }] scores
    3; and [validateQueryConstraints] throws the depth error exactly when
    the complexity check has passed and the depth of the sanitized text is
    greater than [maxDepth]. *)
Theorem depth_score_and_limit :
  (∀ query,
     (∀ k, counterAt query k <= calculateQueryDepth query)%Z
     ∧ ∃ k, k <= length query ∧ counterAt query k = calculateQueryDepth query)
  ∧ calculateQueryDepth (js "{ a { b { c } } }") = 3%Z
  ∧ calculateQueryDepth (js "} } { a") = 0%Z
  ∧ (∀ query config,
       (∃ d m, validateQueryConstraints toLowerCase query config = Some (DepthExceeded d m))
       ↔ (inject_Z (Z.of_nat (calculateQueryComplexity (sanitizeQuery query)))
            <= Config.maxComplexity config)%Q
         ∧ (Config.maxDepth config < inject_Z (calculateQueryDepth (sanitizeQuery query)))%Q).
Proof.
  split_and!.
  - intros query. rewrite calculateQueryDepth_peak. split.
    + intros k. apply prefixPeak_bound.
    + apply prefixPeak_attained.
  - by vm_compute.
  - by vm_compute.
  - intros query config. unfold validateQueryConstraints.
    rewrite <- exceeds_spec, <- exceeds_false.
    destruct (exceeds (Z.of_nat _) _) eqn:Hc.
    + split; [by intros (d & m & H)|by intros [? _]].
    + destruct (exceeds (calculateQueryDepth _) _) eqn:Hd.
      * split; [done|]. intros _. by eexists _, _.
      * split; [|by intros [_ ?]]. intros (d & m & H). by destruct (firstDisabled _ _ _).
Qed.

(** C7, as amended: a second pass of [sanitizeQuery] changes nothing
    exactly when the text left by the first pass holds no complete block
    comment, that is, when removing block comments from it changes
    nothing. *)
Theorem sanitize_twice (s : jsstring) :
  sanitizeQuery (sanitizeQuery s) = sanitizeQuery s
  ↔ removeBlockComments (sanitizeQuery s) = sanitizeQuery s.
Proof.
  split.
  - intros H. apply removeBlockComments_fixed. apply Nat.le_antisymm.
    + apply replaceAll_length. simpl. lia.
    + rewrite <- H at 1. apply sanitizeQuery_length.
  - intros H. destruct (sanitizeQuery_tidy s) as (Hh & Hs & H1 & H2).
    by apply sanitizeQuery_on_tidy.
Qed.

(** C8: once the complexity and the depth check have passed,
    [validateQueryConstraints] throws the disabled-resolver error exactly
    when some name of [disabledResolvers] occurs in the sanitized text with
    case ignored, wherever in the text that is; it then throws no other
    error, and the name it reports is such a name. *)
Theorem disabled_resolver_check (query : jsstring) (config : Config.t) :
  (inject_Z (Z.of_nat (calculateQueryComplexity (sanitizeQuery query)))
     <= Config.maxComplexity config)%Q →
  (inject_Z (calculateQueryDepth (sanitizeQuery query)) <= Config.maxDepth config)%Q →
  ((∃ r, validateQueryConstraints toLowerCase query config = Some (ResolverDisabled r))
   ↔ ∃ r, r ∈ Config.disabledResolvers config
          ∧ occursIgnoringCase toLowerCase r (sanitizeQuery query))
  ∧ (∀ e, validateQueryConstraints toLowerCase query config = Some e →
          ∃ r, e = ResolverDisabled r ∧ r ∈ Config.disabledResolvers config
               ∧ occursIgnoringCase toLowerCase r (sanitizeQuery query)).
Proof.
  intros Hc%exceeds_false Hd%exceeds_false. unfold validateQueryConstraints.
  rewrite Hc, Hd. split; [split|].
  - intros [r H]. destruct (firstDisabled _ _ _) as [r'|] eqn:Hf; [|done].
    exists r'. by apply firstDisabled_Some.
  - intros (r & Hin & Ho). destruct (firstDisabled _ _ _) as [r'|] eqn:Hf; [by eexists|].
    by destruct (firstDisabled_None _ _ Hf r Hin).
  - intros e He. destruct (firstDisabled _ _ _) as [r'|] eqn:Hf; [|done].
    injection He as <-. exists r'. split; [done|]. by apply firstDisabled_Some.
Qed.

(** ** SchemaCatalog *)


(** ** QuerySynthesizer and resolver calls *)

Lemma fold_insert_other (entries : list (jsstring * Json)) (m : gmap jsstring Json) key :
  key ∉ entries.*1 →
  fold_left (fun variables entry => assign entry.1 entry.2 variables) entries m !! key = m !! key.
Proof.
  revert m; induction entries as [|[k v] entries IH]; intros m Hk; [done|].
  simpl in *. apply not_elem_of_cons in Hk as [Hne Hk].
  rewrite IH by done. by rewrite assign_lookup_ne.
Qed.

Lemma collectVariables_lookup (entries : list (jsstring * Json)) key value :
  NoDup entries.*1 → (key, value) ∈ entries → key ≠ js "__proto__" →
  collectVariables entries !! key = Some value.
Proof.
  unfold collectVariables. generalize (∅ : gmap jsstring Json).
  induction entries as [|[k v] entries IH]; intros m Hnd Hin Hp; [by apply elem_of_nil in Hin|].
  simpl in *. apply NoDup_cons in Hnd as [Hk Hnd].
  apply elem_of_cons in Hin as [[= -> ->]|Hin].
  - rewrite fold_insert_other by done. by rewrite assign_lookup_eq.
  - by apply IH.
Qed.

(** What [handleGraphQLResolver] does on a configured server. *)
Lemma handleGraphQLResolver_configured env network state tool args client config :
  ServerState.client state = Some client →
  ServerState.config state = Some config →
  let entries := default [] args in
  let query := buildQuery schemaOf state tool entries in
  handleGraphQLResolver toLowerCase parseHeaders stringify schemaOf env network state tool args =
  match validateQueryConstraints toLowerCase query config with
  | Some e => Thrown (Mcp e)
  | None =>
      match network client query (collectVariables entries) with
      | Resolved result =>
          Returned {| text := successText stringify state (Tool.resolver tool) result;
                      isError := false |}
      | Rejected message =>
          Returned {| text := failureText (Tool.resolver tool) (errorMessage message) query;
                      isError := true |}
      end
  end.
Proof. intros Hc Hf. unfold handleGraphQLResolver. by rewrite Hc, Hf. Qed.

(** C10: an argument of a call whose name is none of the declared
    arguments of the resolver is declared in the query as a variable of
    type [String], and its value is passed in the variables; the call is
    not rejected for it: when the safety checks pass, the query goes to the
    network with these variables and the call returns a result.  The name
    of the argument is any but [__proto__], the one key that an assignment
    to the variables object does not store. *)
Theorem unknown_argument_is_String env (network : Network) state tool entries
    key value client config :
  NoDup entries.*1 →
  (key, value) ∈ entries →
  (∀ a, a ∈ Resolver.args (Tool.resolver tool) → Arg.name a ≠ key) →
  key ≠ js "__proto__" →
  ServerState.client state = Some client →
  ServerState.config state = Some config →
  let declaration := js "$" ++ key ++ js ": String" in
  let query := buildQuery schemaOf state tool entries in
  declaration ∈ (varPair tool <$> entries)
  ∧ includes query declaration = true
  ∧ collectVariables entries !! key = Some value
  ∧ (validateQueryConstraints toLowerCase query config = None →
     ∃ r, handleGraphQLResolver toLowerCase parseHeaders stringify schemaOf
            env network state tool (Some entries) = Returned r
          ∧ r = match network client query (collectVariables entries) with
                | Resolved result =>
                    {| text := successText stringify state (Tool.resolver tool) result;
                       isError := false |}
                | Rejected message =>
                    {| text := failureText (Tool.resolver tool) (errorMessage message) query;
                       isError := true |}
                end).
Proof.
  intros Hnd Hin Hargs Hproto Hc Hf declaration query.
  assert (declaration ∈ (varPair tool <$> entries)) as Hdecl.
  { apply list_elem_of_fmap. exists (key, value). split; [|done].
    unfold declaration, varPair. simpl. rewrite find_no_match; [done|].
    intros a Ha. apply bool_decide_eq_false. by apply Hargs. }
  split_and!; [done| |by apply collectVariables_lookup|].
  - unfold query, buildQuery.
    rewrite (app_assoc (opWord _) (js " ")). apply includes_within.
    by apply parenthesized_includes.
  - intros Hv. rewrite (handleGraphQLResolver_configured _ _ _ _ _ _ _ Hc Hf). simpl.
    fold query. rewrite Hv. destruct (network _ _ _); by eexists.
Qed.


(** ** Dispatcher *)


(** C2, at the failing calls: a call of [configure] or [introspect], under
    these names or under [configure_graphql] and [introspect_schema], runs
    no handler; with the dynamic tools that the catalog builds, the
    dispatcher throws the unknown-tool error that lists the tools it
    knows. *)
Theorem configure_and_introspect_unknown env (network : Network) now state name args :
  name ∈ [js "configure"; js "configure_graphql"; js "introspect"; js "introspect_schema"] →
  (∀ tool, tool ∈ ServerState.dynamicTools state →
     ∃ op field, Tool.name tool = opPrefix op ++ field) →
  callTool toLowerCase parseHeaders stringify schemaOf isTruthy env network now state name args
  = Thrown (Mcp (UnknownTool name (listTools state)))
  ∧ errorCode (UnknownTool name (listTools state)) = MethodNotFound
  ∧ name ∉ listTools state.
Proof.
  intros Hname Htools.
  assert (name ≠ js "get_status") as Hstatus.
  { intros ->.
    repeat (apply elem_of_cons in Hname as [Hname|Hname]; [by vm_compute in Hname|]).
    by apply elem_of_nil in Hname. }
  assert (∀ tool, tool ∈ ServerState.dynamicTools state → Tool.name tool ≠ name) as Hdyn.
  { intros tool (op & field & ->)%Htools.
    repeat (apply elem_of_cons in Hname as [->|Hname]); [..|by apply elem_of_nil in Hname];
      destruct op; by vm_compute. }
  split_and!; [|done|].
  - unfold callTool. rewrite bool_decide_eq_false_2 by done.
    rewrite find_no_match; [done|].
    intros tool Ht. apply bool_decide_eq_false. by apply Hdyn.
  - unfold listTools. intros [?|(tool & Hn & Ht)%list_elem_of_fmap]%elem_of_cons; [done|].
    by apply (Hdyn tool).
Qed.

(** C3, at the failing fields: the endpoint is the explicit one when
    there is one and the one of the environment otherwise, and the headers
    are merged key by key with the explicit keys winning; but [timeout],
    [maxDepth], [maxComplexity] and [disabledResolvers] are the explicit
    value or else the default of the argument schema, whatever the
    environment says. *)
Theorem environment_limits_overwritten env args parsedArgs :
  parseConfigureArgs isUrl args = Some parsedArgs →
  let envConfig := loadEnvironmentConfig parseHeaders env in
  let config := mergeConfig envConfig parsedArgs in
  Config.endpoint config =
    match Args.endpoint args with
    | Some e => Some e
    | None => EnvConfig.endpoint envConfig
    end
  ∧ (∀ k, Config.headers config !! k =
          match default ∅ (Args.headers args) !! k with
          | Some v => Some v
          | None => default ∅ (EnvConfig.headers envConfig) !! k
          end)
  ∧ Config.timeout config = default (inject_Z 30000) (Args.timeout args)
  ∧ Config.maxDepth config = default (inject_Z 10) (Args.maxDepth args)
  ∧ Config.maxComplexity config = default (inject_Z 100) (Args.maxComplexity args)
  ∧ Config.disabledResolvers config = default [] (Args.disabledResolvers args).
Proof.
  unfold parseConfigureArgs. destruct (_ && _); [|done]. intros [= <-]. simpl.
  split_and!; try done.
  intros k. rewrite lookup_union. by destruct (default ∅ (Args.headers args) !! k), (_ !! k).
Qed.
End Properties.

(** * The server on examples *)

Lemma sampleState_reached :
  sampleConfigure Env.empty countriesArgs ServerState.initial
  = (Returned {| summaryEndpoint := countriesEndpoint; summaryMaxDepth := inject_Z 10;
                 summaryMaxComplexity := inject_Z 100; summaryDisabledResolvers := js "None";
                 summaryTimeout := inject_Z 30000; summaryDynamicTools := 2 |},
     sampleState).
Proof. vm_compute. reflexivity. Qed.



Lemma sampleState_tools_prefixed :
  ∀ tool, tool ∈ ServerState.dynamicTools sampleState →
    ∃ op field, Tool.name tool = opPrefix op ++ field.
Proof.
  intros tool Hin. simpl in Hin.
  repeat (apply elem_of_cons in Hin as [->|Hin]); [..|by apply elem_of_nil in Hin];
    eexists OpQuery, _; reflexivity.
Qed.

Lemma configure_and_introspect_unknown_witness :
  js "configure_graphql"
    ∈ [js "configure"; js "configure_graphql"; js "introspect"; js "introspect_schema"]
  ∧ callTool lowerAscii sampleParseHeaders sampleStringify sampleSchemaOf sampleIsTruthy
      Env.empty sampleNetwork 2000 sampleState (js "configure_graphql")
      (Some [(js "endpoint", SampleData (js "https://countries.trevorblades.com/"))])
    = Thrown (Mcp (UnknownTool (js "configure_graphql")
                     [js "get_status"; js "query_countries"; js "query_country"])).
Proof.
  assert (js "configure_graphql"
    ∈ [js "configure"; js "configure_graphql"; js "introspect"; js "introspect_schema"]) as H
    by (right; left).
  split; [exact H|].
  exact (proj1 (configure_and_introspect_unknown lowerAscii sampleParseHeaders sampleStringify
    sampleSchemaOf sampleIsTruthy Env.empty sampleNetwork 2000 sampleState (js "configure_graphql")
    (Some [(js "endpoint", SampleData (js "https://countries.trevorblades.com/"))])
    H sampleState_tools_prefixed)).
Defined.

Lemma environment_limits_overwritten_witness :
  let envConfig := loadEnvironmentConfig sampleParseHeaders limitsEnv in
  parseConfigureArgs sampleIsUrl Args.empty = Some defaultParsedArgs
  ∧ EnvConfig.maxDepth envConfig = Some (inject_Z 5)
  ∧ EnvConfig.timeout envConfig = Some (inject_Z 5000)
  ∧ EnvConfig.maxComplexity envConfig = Some (inject_Z 50)
  ∧ EnvConfig.disabledResolvers envConfig = Some [js "country"]
  ∧ Config.maxDepth (mergeConfig envConfig defaultParsedArgs) = inject_Z 10
  ∧ Config.timeout (mergeConfig envConfig defaultParsedArgs) = inject_Z 30000
  ∧ Config.maxComplexity (mergeConfig envConfig defaultParsedArgs) = inject_Z 100
  ∧ Config.disabledResolvers (mergeConfig envConfig defaultParsedArgs) = [].
Proof.
  assert (parseConfigureArgs sampleIsUrl Args.empty = Some defaultParsedArgs) as H
    by (vm_compute; reflexivity).
  pose proof (environment_limits_overwritten sampleIsUrl sampleParseHeaders limitsEnv
    Args.empty defaultParsedArgs H) as (_ & _ & Ht & Hd & Hc & Hr).
  split_and!; [exact H|vm_compute; reflexivity..|exact Hd|exact Ht|exact Hc|exact Hr].
Defined.

(** The state in which the environment of [limitsEnv] leaves the server at
    start-up, when [main] calls [handleConfigureGraphQL({})]: the limits are
    the defaults, not those of the environment. *)
Lemma startup_ignores_environment_limits :
  let state := (sampleConfigure limitsEnv Args.empty ServerState.initial).2 in
  let status := handleGetStatus sampleIsTruthy 2000 state in
  Status.maxDepth <$> Status.settings_ status = Some (inject_Z 10)
  ∧ Status.maxComplexity <$> Status.settings_ status = Some (inject_Z 100)
  ∧ Status.timeout <$> Status.settings_ status = Some (inject_Z 30000)
  ∧ Status.disabledResolvers <$> Status.settings_ status = Some []
  ∧ Status.headersConfigured <$> Status.settings_ status = Some true
  ∧ Tool.name <$> ServerState.dynamicTools state = [js "query_countries"; js "query_country"].
Proof. vm_compute. repeat split; reflexivity. Qed.

Example countries_query :
  buildQuery sampleSchemaOf sampleState countriesTool []
  = js "query  {" ++ nl ++ js "    countries { name code emoji }" ++ nl ++ js "  }".
Proof. vm_compute. reflexivity. Qed.



(** C6, counterexample: with both limits at 1, the text [a { b { c } }]
    has depth 2, above the limit, and yet the error thrown is not the depth
    error: the complexity check comes first and throws. *)
Lemma depth_error_not_exactly_when_too_deep :
  let query := js "a { b { c } }" in
  validateQueryConstraints lowerAscii query strictConfig = Some (ComplexityExceeded 2 (inject_Z 1))
  ∧ ¬ ((∃ d m, validateQueryConstraints lowerAscii query strictConfig = Some (DepthExceeded d m))
       ↔ (Config.maxDepth strictConfig < inject_Z (calculateQueryDepth (sanitizeQuery query)))%Q).
Proof.
  assert (validateQueryConstraints lowerAscii (js "a { b { c } }") strictConfig
          = Some (ComplexityExceeded 2 (inject_Z 1))) as H by (vm_compute; reflexivity).
  split; [exact H|]. intros [_ Hiff].
  destruct Hiff as (d & m & Hd); [by vm_compute|]. rewrite H in Hd. discriminate.
Qed.

(** C7, counterexample: the first pass removes the comment between the
    slash and the star, and leaves a comment that the second pass removes. *)
Lemma sanitize_not_idempotent :
  let s := js "//* x */* y */" in
  sanitizeQuery s = js "/* y */"
  ∧ sanitizeQuery (sanitizeQuery s) = []
  ∧ sanitizeQuery (sanitizeQuery s) ≠ sanitizeQuery s.
Proof. vm_compute. repeat split; [reflexivity..|discriminate]. Qed.

Lemma disabled_resolver_check_witness :
  let query := js "{ continents { myCOUNTRYcodes } }" in
  (inject_Z (Z.of_nat (calculateQueryComplexity (sanitizeQuery query)))
     <= Config.maxComplexity guardedConfig)%Q
  ∧ (inject_Z (calculateQueryDepth (sanitizeQuery query)) <= Config.maxDepth guardedConfig)%Q
  ∧ validateQueryConstraints lowerAscii query guardedConfig = Some (ResolverDisabled (js "Country"))
  ∧ ∃ r, r ∈ Config.disabledResolvers guardedConfig
         ∧ occursIgnoringCase lowerAscii r (sanitizeQuery query).
Proof.
  set (query := js "{ continents { myCOUNTRYcodes } }").
  assert (inject_Z (Z.of_nat (calculateQueryComplexity (sanitizeQuery query)))
            <= Config.maxComplexity guardedConfig)%Q as Hc by (vm_compute; discriminate).
  assert (inject_Z (calculateQueryDepth (sanitizeQuery query))
            <= Config.maxDepth guardedConfig)%Q as Hd by (vm_compute; discriminate).
  assert (validateQueryConstraints lowerAscii query guardedConfig
          = Some (ResolverDisabled (js "Country"))) as Hv by (vm_compute; reflexivity).
  split_and!; [exact Hc|exact Hd|exact Hv|].
  exact (proj1 (proj1 (disabled_resolver_check lowerAscii query guardedConfig Hc Hd))
           (ex_intro _ _ Hv)).
Defined.


Lemma unknown_argument_is_String_witness :
  let entries := [(js "code", SampleData (js "BR")); (js "lang", SampleData (js "pt"))] in
  NoDup entries.*1
  ∧ (js "lang", SampleData (js "pt")) ∈ entries
  ∧ (∀ a, a ∈ Resolver.args (Tool.resolver countryTool) → Arg.name a ≠ js "lang")
  ∧ js "lang" ≠ js "__proto__"
  ∧ includes (buildQuery sampleSchemaOf sampleState countryTool entries)
      (js "($code: ID!, $lang: String)") = true
  ∧ includes (buildQuery sampleSchemaOf sampleState countryTool entries)
      (js "$lang: String") = true
  ∧ collectVariables entries !! js "lang" = Some (SampleData (js "pt")).
Proof.
  set (entries := [(js "code", SampleData (js "BR")); (js "lang", SampleData (js "pt"))]).
  assert (NoDup entries.*1) as Hnd by (refine (bool_decide_unpack _ _); vm_compute; exact I).
  assert ((js "lang", SampleData (js "pt")) ∈ entries) as Hin by (right; left).
  assert (∀ a, a ∈ Resolver.args (Tool.resolver countryTool) → Arg.name a ≠ js "lang") as Ha.
  { intros a Hin'. simpl in Hin'.
    apply elem_of_cons in Hin' as [->|Hin']; [by vm_compute|by apply elem_of_nil in Hin']. }
  assert (js "lang" ≠ js "__proto__") as Hp by (vm_compute; discriminate).
  pose proof (unknown_argument_is_String lowerAscii sampleParseHeaders sampleStringify
    sampleSchemaOf Env.empty sampleNetwork sampleState countryTool entries (js "lang")
    (SampleData (js "pt")) sampleClient sampleConfig Hnd Hin Ha Hp eq_refl eq_refl)
    as (_ & Hq & Hv & _).
  split_and!; [exact Hnd|exact Hin|exact Ha|exact Hp|vm_compute; reflexivity|exact Hq|exact Hv].
Defined.

(** * Further properties of the server *)

(** ** TypeMapper *)

Lemma not_word_in_name (c : N) (before after name : jsstring) :
  Char.isWord c = false → Forall (fun x => Char.isWord x = true) name →
  name ≠ before ++ c :: after.
Proof.
  intros Hc Hn ->. apply Forall_app in Hn as [_ Hn]. inversion Hn; congruence.
Qed.

Lemma typeString_NON_NULL a :
  getGraphQLTypeString (NON_NULL a) = getGraphQLTypeString a ++ [33%N].
Proof. reflexivity. Qed.

Lemma typeString_LIST a :
  getGraphQLTypeString (LIST a) = (91%N :: getGraphQLTypeString a) ++ [93%N].
Proof. reflexivity. Qed.

(** X1: the type string of a variable declaration tells the type: two type
    references whose names are made of word characters and that have the
    same type string have the same wrappers, in the same order, around the
    same name. *)
Theorem type_string_determines_type (t1 t2 : TypeRef) :
  Forall (fun c => Char.isWord c = true) (typeName (getLeafType t1)) →
  Forall (fun c => Char.isWord c = true) (typeName (getLeafType t2)) →
  getGraphQLTypeString t1 = getGraphQLTypeString t2 →
  wrappersAndName t1 = wrappersAndName t2.
Proof.
  revert t2. induction t1 as [a IH|a IH|k n e]; intros [b|b|k' n' e'] H1 H2;
    rewrite ?typeString_NON_NULL, ?typeString_LIST;
    change (getGraphQLTypeString (Named ?k ?n ?e)) with n;
    change (typeName (getLeafType (Named ?k ?n ?e))) with n in *;
    cbn [wrappersAndName].
  - intros [Hs _]%app_inj_tail. f_equal. by apply IH.
  - by intros [_ [=]]%app_inj_tail.
  - intros Hs. symmetry in Hs. by apply (not_word_in_name 33 _ [] _ eq_refl H2) in Hs.
  - by intros [_ [=]]%app_inj_tail.
  - intros [[= Hs] _]%app_inj_tail. f_equal. by apply IH.
  - intros Hs. symmetry in Hs. rewrite <- app_comm_cons in Hs.
    by apply (not_word_in_name 91 [] _ _ eq_refl H2) in Hs.
  - intros Hs. by apply (not_word_in_name 33 _ [] _ eq_refl H1) in Hs.
  - intros Hs. rewrite <- app_comm_cons in Hs.
    by apply (not_word_in_name 91 [] _ _ eq_refl H1) in Hs.
  - by intros ->.
Qed.

(** X2: the JSON Schema of an argument type does not record nullability:
    it is the schema of the type without its [NON_NULL] wrappers, at every
    depth; it has one array level per [LIST] wrapper, and the type of its
    innermost items is [string], [integer], [number] or [boolean]. *)
Theorem json_schema_of_type (t : TypeRef) :
  convertGraphQLTypeToJsonSchema t = convertGraphQLTypeToJsonSchema (stripNonNull t)
  ∧ arrayDepth (convertGraphQLTypeToJsonSchema t) = listDepth t
  ∧ itemType (convertGraphQLTypeToJsonSchema t)
      ∈ [js "string"; js "integer"; js "number"; js "boolean"].
Proof.
  induction t as [a (IH1 & IH2 & IH3)|a (IH1 & IH2 & IH3)|k n e]; simpl.
  - done.
  - split_and!; [by rewrite IH1|by rewrite IH2|done].
  - split_and!; [done| |].
    + destruct k; repeat case_bool_decide; done.
    + destruct k; repeat case_bool_decide; simpl; set_solver.
Qed.

(** ** SchemaCatalog *)

Lemma fold_argStep (args : list Arg.t) (properties : gmap jsstring JsonSchema)
    (required : list jsstring) :
  (fold_left argStep args (properties, required)).2
    = required ++ (Arg.name <$> filter (fun a => isNonNull (Arg.type a) = true) args)
  ∧ ∀ k, is_Some ((fold_left argStep args (properties, required)).1 !! k)
         ↔ is_Some (properties !! k) ∨ (k ∈ Arg.name <$> args ∧ k ≠ js "__proto__").
Proof.
  revert properties required. induction args as [|a args IH]; intros properties required.
  - simpl. rewrite app_nil_r. split; [done|]. intros k. rewrite elem_of_nil. tauto.
  - cbn [fold_left]. unfold argStep at 2.
    match goal with |- context [fold_left argStep args (?p, ?r)] =>
      destruct (IH p r) as [IHr IHp] end.
    split.
    + rewrite IHr, filter_cons. destruct (Arg.type a); cbn [isNonNull]; case_decide; try done;
        by rewrite ?fmap_cons, <- ?app_assoc.
    + intros k. rewrite IHp, fmap_cons, elem_of_cons.
      destruct (decide (Arg.name a = k)) as [<-|Hne].
      * destruct (decide (Arg.name a = js "__proto__")) as [Hp|Hp].
        -- rewrite Hp, assign_lookup_proto. tauto.
        -- rewrite assign_lookup_eq by done.
           split; [intros _; right; split; [by left|done]|intros _; left; by eexists].
      * rewrite assign_lookup_ne by done.
        split; [intros [?|[? ?]]; [by left|right; split; [by right|done]]
               |intros [?|[[?|?] ?]]; [by left|congruence|by right]].
Qed.

Lemma toolOfField_name op f : Tool.name (toolOfField op f) = opPrefix op ++ Field.name f.
Proof. unfold toolOfField. by destruct (fold_left _ _ _). Qed.

Lemma toolOfField_inputSchema op f :
  Tool.inputSchema (toolOfField op f)
  = {| InputSchema.properties := (fold_left argStep (default [] (Field.args f)) (∅, [])).1;
       InputSchema.required := (fold_left argStep (default [] (Field.args f)) (∅, [])).2 |}.
Proof. unfold toolOfField. by destruct (fold_left _ _ _). Qed.

(** X3: in the input schema of a tool, the properties are the arguments of
    the field, by name, but for an argument named [__proto__], which the
    assignment does not store; the required names are those of the arguments
    whose type is [NON_NULL] at the top, in the order of the arguments; so
    every required name but [__proto__] is a property. *)
Theorem input_schema_of_tool (op : OperationType) (f : Field.t) :
  let args := default [] (Field.args f) in
  let schema := Tool.inputSchema (toolOfField op f) in
  InputSchema.required schema
    = Arg.name <$> filter (fun a => isNonNull (Arg.type a) = true) args
  ∧ (∀ k, is_Some (InputSchema.properties schema !! k)
          ↔ k ∈ Arg.name <$> args ∧ k ≠ js "__proto__")
  ∧ (∀ k, k ∈ InputSchema.required schema → k ≠ js "__proto__" →
          is_Some (InputSchema.properties schema !! k)).
Proof.
  intros args schema. unfold schema. rewrite toolOfField_inputSchema. cbn [InputSchema.required
    InputSchema.properties]. fold args.
  destruct (fold_argStep args ∅ []) as [Hr Hp]. simpl in Hr.
  assert (∀ k, is_Some ((fold_left argStep args (∅, [])).1 !! k)
               ↔ k ∈ Arg.name <$> args ∧ k ≠ js "__proto__") as Hp'.
  { intros k. rewrite Hp, lookup_empty. split; [intros [[? [=]]|]; done|by right]. }
  split_and!; [done|done|].
  intros k. rewrite Hr, Hp'. intros (a & -> & [_ Ha]%list_elem_of_filter)%list_elem_of_fmap Hk.
  split; [|done]. apply list_elem_of_fmap. by exists a.
Qed.

Lemma createMCPToolsFromSchema_tools {Json} (state : ServerState.t Json) schemaData :
  let enabled := fun f => isDisabled (ServerState.config state) (Field.name f) = false in
  createMCPToolsFromSchema state schemaData
  = (toolOfField OpQuery <$> filter enabled (rootFields schemaData (Schema.queryType schemaData)))
    ++ (toolOfField OpMutation
          <$> filter enabled (rootFields schemaData (Schema.mutationType schemaData))).
Proof. intros enabled. unfold createMCPToolsFromSchema. by rewrite !fold_fieldStep. Qed.

Lemma prefixed_names_NoDup op (P : Field.t → Prop) `{∀ f, Decision (P f)} (fields : list Field.t) :
  NoDup (Field.name <$> fields) →
  NoDup (Tool.name <$> (toolOfField op <$> filter P fields)).
Proof.
  intros Hnd. rewrite <- list_fmap_compose.
  rewrite (list_fmap_ext _ ((fun n => opPrefix op ++ n) ∘ Field.name) (filter P fields))
    by (intros i f _; apply toolOfField_name).
  rewrite list_fmap_compose. apply NoDup_fmap_2; [intros a b; apply app_inv_head|].
  eapply sublist_NoDup; [exact Hnd|]. apply fmap_sublist, sublist_filter.
Qed.

(** X4: when the fields of the root Query type have distinct names, and so
    have those of the root Mutation type, the tools of the catalog have
    distinct names, and none is named [get_status]. *)
Theorem catalog_names_distinct {Json} (state : ServerState.t Json) (schemaData : Schema.t) :
  NoDup (Field.name <$> rootFields schemaData (Schema.queryType schemaData)) →
  NoDup (Field.name <$> rootFields schemaData (Schema.mutationType schemaData)) →
  NoDup (Tool.name <$> createMCPToolsFromSchema state schemaData)
  ∧ js "get_status" ∉ Tool.name <$> createMCPToolsFromSchema state schemaData.
Proof.
  intros Hq Hm. rewrite createMCPToolsFromSchema_tools, fmap_app. split.
  - apply NoDup_app. split_and!; [by apply prefixed_names_NoDup| |by apply prefixed_names_NoDup].
    intros name (t & -> & (f & -> & _)%list_elem_of_fmap)%list_elem_of_fmap
                (t' & Hn & (f' & -> & _)%list_elem_of_fmap)%list_elem_of_fmap.
    rewrite !toolOfField_name in Hn. discriminate Hn.
  - intros [Hin|Hin]%elem_of_app;
      apply list_elem_of_fmap in Hin as (t & Hn & (f & -> & _)%list_elem_of_fmap);
      rewrite toolOfField_name in Hn; discriminate Hn.
Qed.

(** ** Dispatcher *)

Lemma find_first_named (tools : list Tool.t) (tool : Tool.t) :
  NoDup (Tool.name <$> tools) → tool ∈ tools →
  List.find (fun t => bool_decide (Tool.name t = Tool.name tool)) tools = Some tool.
Proof.
  induction tools as [|t tools IH]; [by intros _ ?%elem_of_nil|].
  rewrite fmap_cons. intros [Ht Hnd]%NoDup_cons [->|Hin]%elem_of_cons; simpl.
  - by rewrite bool_decide_eq_true_2.
  - rewrite bool_decide_eq_false_2; [by apply IH|].
    intros Heq. apply Ht. rewrite Heq. apply list_elem_of_fmap. by exists tool.
Qed.

(** X5: the dispatcher answers the unknown-tool error exactly for the
    names that the tool list does not hold; [get_status] is always answered
    with the status. *)
Theorem unknown_tool_iff_not_listed {Json} toLowerCase parseHeaders stringify schemaOf
    (isTruthy : Json → bool) env (network : @Network Json) now state name args :
  ((∃ n available,
      callTool toLowerCase parseHeaders stringify schemaOf isTruthy env network now state name args
      = Thrown (Mcp (UnknownTool n available)))
   ↔ name ∉ listTools state)
  ∧ callTool toLowerCase parseHeaders stringify schemaOf isTruthy env network now state
      (js "get_status") args
    = Returned (StatusReply (handleGetStatus isTruthy now state)).
Proof.
  split; [|unfold callTool; by rewrite bool_decide_eq_true_2].
  unfold callTool, listTools. case_bool_decide as Hs.
  { subst name. split; [by intros (n & l & [=])|]. intros Hn. destruct Hn. by left. }
  destruct (List.find _ _) as [tool|] eqn:Hf.
  - apply find_some in Hf as [Hin Hn]. apply bool_decide_eq_true in Hn.
    split.
    + intros (n & l & He). unfold handleGraphQLResolver in He.
      destruct (ServerState.client state), (ServerState.config state); try by inversion He.
      destruct (validateQueryConstraints _ _ _) as [e|] eqn:Hv.
      * unfold validateQueryConstraints in Hv.
        destruct (exceeds _ _); [injection Hv as <-; by inversion He|].
        destruct (exceeds _ _); [injection Hv as <-; by inversion He|].
        destruct (firstDisabled _ _ _); [injection Hv as <-; by inversion He|done].
      * destruct (network _ _ _); by inversion He.
    + intros Hnot. destruct Hnot. right. apply list_elem_of_fmap. exists tool.
      split; [done|]. by apply list_elem_of_In.
  - split; [|intros _; by eexists _, _].
    intros _ [?|(tool & -> & Hin)%list_elem_of_fmap]%elem_of_cons; [done|].
    apply list_elem_of_In in Hin. apply (find_none _ _ Hf) in Hin.
    by apply bool_decide_eq_false in Hin.
Qed.

(** X6: with distinct tool names, a call by the name of a dynamic tool
    runs [handleGraphQLResolver] on that very tool with the arguments of the
    call: what it returns is returned, and the error it throws is thrown as
    it is. *)
Theorem dynamic_tool_dispatch {Json} toLowerCase parseHeaders stringify schemaOf
    (isTruthy : Json → bool) env (network : @Network Json) now state tool args :
  NoDup (Tool.name <$> ServerState.dynamicTools state) →
  tool ∈ ServerState.dynamicTools state →
  Tool.name tool ≠ js "get_status" →
  callTool toLowerCase parseHeaders stringify schemaOf isTruthy env network now state (Tool.name tool) args
  = match handleGraphQLResolver toLowerCase parseHeaders stringify schemaOf
            env network state tool args with
    | Returned r => Returned (ResolverReply r)
    | Thrown e => Thrown e
    end
  ∧ ∀ e, handleGraphQLResolver toLowerCase parseHeaders stringify schemaOf
           env network state tool args = Thrown e → ∃ m, e = Mcp m.
Proof.
  intros Hnd Hin Hs. unfold callTool. rewrite bool_decide_eq_false_2 by done.
  rewrite (find_first_named _ _ Hnd Hin).
  assert (∀ e, handleGraphQLResolver toLowerCase parseHeaders stringify schemaOf
           env network state tool args = Thrown e → ∃ m, e = Mcp m) as Hmcp.
  { intros e. unfold handleGraphQLResolver.
    destruct (ServerState.client state), (ServerState.config state);
      try (intros [= <-]; by eexists).
    destruct (validateQueryConstraints _ _ _); [intros [= <-]; by eexists|].
    by destruct (network _ _ _). }
  split; [|done].
  destruct (handleGraphQLResolver _ _ _ _ _ _ _ _ _) as [r|e] eqn:Hr; [done|].
  destruct (Hmcp e eq_refl) as [m ->]. done.
Qed.

(** ** SafetyGuard *)

Lemma firstDisabled_first toLowerCase sanitized resolvers r :
  firstDisabled toLowerCase sanitized resolvers = Some r →
  ∃ before after, resolvers = before ++ r :: after
    ∧ occursIgnoringCase toLowerCase r sanitized
    ∧ ∀ r', r' ∈ before → ¬ occursIgnoringCase toLowerCase r' sanitized.
Proof.
  induction resolvers as [|r0 rs IH]; simpl; [done|].
  destruct (includes _ _) eqn:Hi.
  - intros [= <-]. exists [], rs. split_and!; [done|by apply includes_spec|].
    by intros r' ?%elem_of_nil.
  - intros (before & after & -> & Ho & Hb)%IH. exists (r0 :: before), after.
    split_and!; [done|done|]. intros r' [->|Hin]%elem_of_cons; [|by apply Hb].
    intros Ho'%includes_spec. congruence.
Qed.

Lemma firstDisabled_None_iff toLowerCase sanitized resolvers :
  firstDisabled toLowerCase sanitized resolvers = None
  ↔ ∀ r, r ∈ resolvers → ¬ occursIgnoringCase toLowerCase r sanitized.
Proof.
  split; [apply firstDisabled_None|].
  induction resolvers as [|r0 rs IH]; simpl; [done|]. intros H.
  destruct (includes _ _) eqn:Hi.
  - destruct (H r0); [by left|by apply includes_spec].
  - apply IH. intros r Hr. apply H. by right.
Qed.

Lemma accepted_has_no_disabled_name toLowerCase (query : jsstring) (config : Config.t) :
  validateQueryConstraints toLowerCase query config = None →
  ∀ r, r ∈ Config.disabledResolvers config
       → ¬ occursIgnoringCase toLowerCase r (sanitizeQuery query).
Proof.
  unfold validateQueryConstraints.
  destruct (exceeds (Z.of_nat _) _); [done|].
  destruct (exceeds (calculateQueryDepth _) _); [done|].
  destruct (firstDisabled _ _ _) eqn:Hf; [done|]. intros _. by apply firstDisabled_None.
Qed.

(** X7: [validateQueryConstraints] returns without an error exactly when
    the complexity of the sanitized text is at most [maxComplexity], its
    depth is at most [maxDepth], and no name of [disabledResolvers] occurs in
    it with case ignored. *)
Theorem query_accepted_iff toLowerCase (query : jsstring) (config : Config.t) :
  validateQueryConstraints toLowerCase query config = None
  ↔ (inject_Z (Z.of_nat (calculateQueryComplexity (sanitizeQuery query)))
       <= Config.maxComplexity config)%Q
    ∧ (inject_Z (calculateQueryDepth (sanitizeQuery query)) <= Config.maxDepth config)%Q
    ∧ ∀ r, r ∈ Config.disabledResolvers config
           → ¬ occursIgnoringCase toLowerCase r (sanitizeQuery query).
Proof.
  unfold validateQueryConstraints. rewrite <- !exceeds_false, <- firstDisabled_None_iff.
  destruct (exceeds (Z.of_nat _) _); [split; [done|by intros [? _]]|].
  destruct (exceeds (calculateQueryDepth _) _); [split; [done|by intros (_ & ? & _)]|].
  destruct (firstDisabled _ _ _); simpl; split; try done. by intros (_ & _ & ?).
Qed.

(** X8: the resolver that the disabled-resolver error names is the first
    name of [disabledResolvers], in the order of the list, that occurs in the
    sanitized text with case ignored. *)
Theorem disabled_error_names_first toLowerCase (query : jsstring) (config : Config.t) r :
  validateQueryConstraints toLowerCase query config = Some (ResolverDisabled r) →
  ∃ before after, Config.disabledResolvers config = before ++ r :: after
    ∧ occursIgnoringCase toLowerCase r (sanitizeQuery query)
    ∧ ∀ r', r' ∈ before → ¬ occursIgnoringCase toLowerCase r' (sanitizeQuery query).
Proof.
  unfold validateQueryConstraints.
  destruct (exceeds (Z.of_nat _) _); [done|].
  destruct (exceeds (calculateQueryDepth _) _); [done|].
  destruct (firstDisabled _ _ _) as [r'|] eqn:Hf; [|done].
  intros [= <-]. by apply firstDisabled_first.
Qed.

(** X9: an empty name among [disabledResolvers] disables everything: with a
    lower-casing that keeps the empty text empty, every query is rejected. *)
Theorem empty_disabled_name_rejects_all toLowerCase (query : jsstring) (config : Config.t) :
  toLowerCase [] = [] →
  [] ∈ Config.disabledResolvers config →
  ∃ e, validateQueryConstraints toLowerCase query config = Some e.
Proof.
  intros Hl Hin. destruct (validateQueryConstraints _ _ _) as [e|] eqn:Hv; [by eexists|].
  destruct (accepted_has_no_disabled_name _ _ _ Hv [] Hin).
  exists [], (toLowerCase (sanitizeQuery query)). by rewrite Hl.
Qed.

(** X10: the text that [sanitizeQuery] returns is not longer than the
    query, holds no [#], has no white space but single space characters, each
    followed by a code unit that is not white space, and neither starts nor
    ends with white space. *)
Theorem sanitized_text_is_tidy (s : jsstring) :
  (length (sanitizeQuery s) <= length s)
  ∧ (Char.hash ∉ sanitizeQuery s)
  ∧ singleSpaced (sanitizeQuery s)
  ∧ headTidy (sanitizeQuery s)
  ∧ headTidy (rev (sanitizeQuery s)).
Proof.
  destruct (sanitizeQuery_tidy s) as (Hh & Hs & H1 & H2). split_and!; try done.
  - etrans; [apply sanitizeQuery_length|]. apply replaceAll_length. simpl. lia.
  - intros Hin. by apply (proj1 (Forall_forall _ _) Hh) in Hin.
Qed.

Lemma prefixPeak_app s1 s2 :
  prefixPeak (s1 ++ s2) = Z.max (prefixPeak s1) (counterAt s1 (length s1) + prefixPeak s2).
Proof.
  induction s1 as [|c s1 IH].
  - rewrite counterAt_0. pose proof (prefixPeak_nonneg s2). simpl. lia.
  - cbn [app prefixPeak length]. rewrite counterAt_cons, IH. lia.
Qed.

Lemma prefixPeak_le_openings s : (prefixPeak s <= occurrences Char.lbrace s)%Z.
Proof.
  induction s as [|c s IH]; [done|]. cbn [prefixPeak]. rewrite occurrences_cons.
  unfold braceStep. pose proof (prefixPeak_nonneg s).
  destruct (c =? Char.lbrace)%N; [lia|]. destruct (c =? Char.rbrace)%N; lia.
Qed.

(** X11: the depth of a text is between zero and the number of its [{];
    the depth of two texts one after the other is the greater of the depth of
    the first and the depth of the second raised by the counter with which
    the first ends; so a [}] in front of a text lowers the depth measured
    for it by one. *)
Theorem depth_of_concatenation (s1 s2 : jsstring) :
  (0 <= calculateQueryDepth s1 <= occurrences Char.lbrace s1)%Z
  ∧ calculateQueryDepth (s1 ++ s2)
    = Z.max (calculateQueryDepth s1) (counterAt s1 (length s1) + calculateQueryDepth s2)
  ∧ calculateQueryDepth (Char.rbrace :: s2) = Z.max 0 (calculateQueryDepth s2 - 1).
Proof.
  rewrite !calculateQueryDepth_peak. split_and!.
  - apply prefixPeak_nonneg.
  - apply prefixPeak_le_openings.
  - apply prefixPeak_app.
  - cbn [prefixPeak]. change (braceStep Char.rbrace) with (-1)%Z. lia.
Qed.

(** ** Complexity *)

Lemma opensAfterSpace_cons c s :
  opensAfterSpace (c :: s) =
  if Char.isSpace c then opensAfterSpace s
  else ((c =? Char.lbrace) || (c =? Char.lparen))%N.
Proof. unfold opensAfterSpace. simpl. by destruct (Char.isSpace c). Qed.

Lemma openers_cons c s :
  (occurrences Char.lbrace (c :: s) + occurrences Char.lparen (c :: s)
   = (if ((c =? Char.lbrace) || (c =? Char.lparen))%N then 1 else 0)
     + (occurrences Char.lbrace s + occurrences Char.lparen s))%Z.
Proof.
  rewrite !occurrences_cons.
  destruct (N.eqb_spec c Char.lbrace) as [->|]; [vm_compute (Char.lbrace =? Char.lparen)%N; simpl; lia|].
  destruct (c =? Char.lparen)%N; simpl; lia.
Qed.

Lemma wordsBeforeOpener_le_openers s :
  let openers := (occurrences Char.lbrace s + occurrences Char.lparen s)%Z in
  (Z.of_nat (wordsBeforeOpener false s) <= openers)%Z
  ∧ (Z.of_nat (wordsBeforeOpener true s) <= openers)%Z
  ∧ (opensAfterSpace s = true → Z.of_nat (wordsBeforeOpener false s) + 1 <= openers)%Z
  ∧ (opensAfterSpace (skipWhile Char.isWord s) = true →
     Z.of_nat (wordsBeforeOpener true s) + 1 <= openers)%Z.
Proof.
  induction s as [|c s (IH1 & IH2 & IH3 & IH4)]; [by vm_compute|].
  cbn zeta. rewrite openers_cons, opensAfterSpace_cons. cbn [wordsBeforeOpener skipWhile].
  destruct (Char.isWord c) eqn:Hw.
  - rewrite (isWord_not_space c Hw), (isWord_not_opener c Hw). cbn [negb andb].
    destruct (opensAfterSpace (skipWhile Char.isWord s)) eqn:Ho.
    + specialize (IH4 eq_refl). split_and!; try done; lia.
    + split_and!; try done; lia.
  - rewrite opensAfterSpace_cons.
    destruct (Char.isSpace c) eqn:Hs.
    + rewrite (isSpace_not_opener c Hs).
      split_and!; try lia; intros Ho; specialize (IH3 Ho); lia.
    + destruct ((c =? Char.lbrace) || (c =? Char.lparen))%N; split_and!; try done; lia.
Qed.

Lemma occurrences_absent c s : c ∉ s → occurrences c s = 0%Z.
Proof.
  induction s as [|x s IH]; [done|].
  intros [Hx Hs]%not_elem_of_cons. rewrite occurrences_cons, (IH Hs).
  destruct (N.eqb_spec x c); [by subst|done].
Qed.

(** X12: the complexity score of a text is at most the number of its [{]
    and [(]; a text without them scores zero. *)
Theorem complexity_at_most_openers (s : jsstring) :
  (Z.of_nat (calculateQueryComplexity s)
   <= occurrences Char.lbrace s + occurrences Char.lparen s)%Z
  ∧ (Char.lbrace ∉ s → Char.lparen ∉ s → calculateQueryComplexity s = 0).
Proof.
  assert (Z.of_nat (calculateQueryComplexity s)
          <= occurrences Char.lbrace s + occurrences Char.lparen s)%Z as Hle.
  { unfold calculateQueryComplexity.
    rewrite (proj1 (complexity_is_token_count s)). apply wordsBeforeOpener_le_openers. }
  split; [done|]. intros Hb Hp.
  rewrite (occurrences_absent _ _ Hb), (occurrences_absent _ _ Hp) in Hle. lia.
Qed.

(** ** QuerySynthesizer *)

(** X13: the selection set is empty exactly for the five built-in scalar
    names and for [Mixed]; every other return type, custom scalars and enums
    included, gets a selection of one to five field names: names of fields of
    the type of that name in the cached schema, in their order, or else the
    four names [id], [name], [code], [title]. *)
Theorem selection_set_shape {Json} (schemaOf : Json → option Schema.t)
    (state : ServerState.t Json) (returnType : jsstring) :
  (returnType ∈ scalarTypes ∨ returnType = js "Mixed" →
   getBasicSelectionSet schemaOf state returnType = [])
  ∧ (returnType ∉ scalarTypes → returnType ≠ js "Mixed" →
     ∃ names, getBasicSelectionSet schemaOf state returnType = selection names
       ∧ 0 < length names <= 5
       ∧ (names = [js "id"; js "name"; js "code"; js "title"]
          ∨ ∃ data schemaData type fields,
              ServerState.cachedSchema state = Some data
              ∧ schemaOf data = Some schemaData
              ∧ type ∈ Schema.types schemaData
              ∧ FullType.name type = returnType
              ∧ FullType.fields type = Some fields
              ∧ names `sublist_of` (Field.name <$> fields))).
Proof.
  unfold getBasicSelectionSet. split.
  - intros [H|H]; [by rewrite bool_decide_eq_true_2|].
    rewrite (bool_decide_eq_true_2 (returnType = _)) by done. by rewrite orb_true_r.
  - intros H1 H2. rewrite !bool_decide_eq_false_2 by done. cbn [orb].
    match goal with |- context [default ?fb _] =>
      assert (∃ names, fb = selection names ∧ 0 < length names <= 5
                ∧ (names = [js "id"; js "name"; js "code"; js "title"]
                   ∨ ∃ data schemaData type fields,
                       ServerState.cachedSchema state = Some data
                       ∧ schemaOf data = Some schemaData
                       ∧ type ∈ Schema.types schemaData
                       ∧ FullType.name type = returnType
                       ∧ FullType.fields type = Some fields
                       ∧ names `sublist_of` (Field.name <$> fields))) as Hfallback
        by (eexists; split_and!; [reflexivity|simpl; lia..|by left]);
      revert Hfallback; generalize fb; intros fallback Hfallback
    end.
    destruct (ServerState.cachedSchema state) as [data|] eqn:Hd; [|exact Hfallback].
    cbn [mbind option_bind]. destruct (schemaOf data) as [schemaData|] eqn:Hs; [|exact Hfallback].
    cbn [mbind option_bind]. destruct (List.find _ _) as [type|] eqn:Hf; [|exact Hfallback].
    cbn [mbind option_bind]. destruct (FullType.fields type) as [fields|] eqn:Hfs; [|exact Hfallback].
    cbn [mbind option_bind]. case_bool_decide as Hlen; [|exact Hfallback].
    apply find_some in Hf as [Hin Hn]. apply bool_decide_eq_true in Hn.
    eexists. split_and!; [reflexivity|done| |].
    + rewrite length_fmap, length_take. lia.
    + right. exists data, schemaData, type, fields. split_and!; try done.
      * by apply list_elem_of_In.
      * apply fmap_sublist. etrans; [apply sublist_take|apply sublist_filter].
Qed.

(** ** Configuration *)

Lemma inRange_spec lo hi x :
  inRange lo hi x = true ↔ (inject_Z lo <= x)%Q ∧ (x <= inject_Z hi)%Q.
Proof. unfold inRange. by rewrite andb_true_iff, !Qle_bool_iff. Qed.

Lemma parseConfigureArgs_Some isUrl args parsedArgs :
  parseConfigureArgs isUrl args = Some parsedArgs →
  inRange 1000 60000 (ParsedArgs.timeout parsedArgs) = true
  ∧ inRange 1 20 (ParsedArgs.maxDepth parsedArgs) = true
  ∧ inRange 1 1000 (ParsedArgs.maxComplexity parsedArgs) = true
  ∧ match ParsedArgs.endpoint parsedArgs with Some e => isUrl e = true | None => True end.
Proof.
  unfold parseConfigureArgs.
  destruct (_ && _) eqn:H; [|done]. intros [= <-]. cbn.
  apply andb_true_iff in H as [[[H1 H2]%andb_true_iff H3]%andb_true_iff H4].
  split_and!; try done. by destruct (Args.endpoint args).
Qed.

(** X14: the limits of a stored configuration are within the bounds of the
    argument schema, whatever the environment holds: after a configure call
    that returns, [timeout] is between 1000 and 60000, [maxDepth] between 1
    and 20 and [maxComplexity] between 1 and 1000. *)
Theorem stored_limits_in_range {Json} isUrl parseHeaders (schemaOf : Json → option Schema.t)
    introspectionQuery env (network : @Network Json) now args state summary state' :
  handleConfigureGraphQL isUrl parseHeaders schemaOf introspectionQuery
    env network now args state = (Returned summary, state') →
  ∃ config, ServerState.config state' = Some config
    ∧ (inject_Z 1000 <= Config.timeout config)%Q ∧ (Config.timeout config <= inject_Z 60000)%Q
    ∧ (inject_Z 1 <= Config.maxDepth config)%Q ∧ (Config.maxDepth config <= inject_Z 20)%Q
    ∧ (inject_Z 1 <= Config.maxComplexity config)%Q
    ∧ (Config.maxComplexity config <= inject_Z 1000)%Q.
Proof.
  unfold handleConfigureGraphQL.
  destruct (parseConfigureArgs isUrl args) as [parsedArgs|] eqn:Hp; [|done].
  apply parseConfigureArgs_Some in Hp as (Ht%inRange_spec & Hd%inRange_spec & Hc%inRange_spec & _).
  destruct (truthy _); cbn [negb]; [|done].
  destruct (network _ probeQuery ∅) as [probe|]; [|done].
  intros [= _ <-]. eexists. split.
  - destruct (network _ introspectionQuery ∅) as [data|]; [destruct (schemaOf data)|]; reflexivity.
  - cbn. tauto.
Qed.

(** X15: a configure call takes nothing from the state it finds: whether it
    returns or throws, and what it returns or throws, is the same from every
    state, and when it returns, the state it leaves is the same from every
    state. *)
Theorem configure_ignores_previous_state {Json} isUrl parseHeaders
    (schemaOf : Json → option Schema.t) introspectionQuery env (network : @Network Json)
    now args (state1 state2 : ServerState.t Json) :
  let run := handleConfigureGraphQL isUrl parseHeaders schemaOf introspectionQuery
               env network now args in
  (run state1).1 = (run state2).1
  ∧ ∀ summary, (run state1).1 = Returned summary → (run state1).2 = (run state2).2.
Proof.
  cbn zeta. unfold handleConfigureGraphQL.
  destruct (parseConfigureArgs isUrl args); [|done].
  destruct (truthy _); cbn [negb]; [|done].
  destruct (network _ probeQuery ∅); done.
Qed.

(** X16: after a configure call that returns, the state holds the data of
    the introspection request exactly when that request resolved, with the
    time of the call as its time stamp, even when no tool could be built from
    the data; [get_status] then reports a schema cache, with its age, exactly
    when the data is truthy.  When the request failed, or the data has no
    schema to read, the server is configured with no dynamic tool. *)
Theorem configure_caches_introspection {Json} isUrl parseHeaders
    (schemaOf : Json → option Schema.t) introspectionQuery (isTruthy : Json → bool)
    env (network : @Network Json) now args state summary state' :
  handleConfigureGraphQL isUrl parseHeaders schemaOf introspectionQuery
    env network now args state = (Returned summary, state') →
  ∃ client, ServerState.client state' = Some client ∧
    match network client introspectionQuery ∅ with
    | Resolved data =>
        ServerState.cachedSchema state' = Some data
        ∧ ServerState.schemaTimestamp state' = now
        ∧ (∀ t, Status.schemaCache (handleGetStatus isTruthy t state') = isTruthy data)
        ∧ (∀ t, Status.cacheAge (handleGetStatus isTruthy t state')
                = if isTruthy data then Some (t - now)%Z else None)
        ∧ (schemaOf data = None → ServerState.dynamicTools state' = [])
    | Rejected _ =>
        ServerState.cachedSchema state' = None
        ∧ (∀ t, Status.schemaCache (handleGetStatus isTruthy t state') = false)
        ∧ (∀ t, Status.cacheAge (handleGetStatus isTruthy t state') = None)
        ∧ ServerState.dynamicTools state' = []
    end.
Proof.
  unfold handleConfigureGraphQL.
  destruct (parseConfigureArgs isUrl args) as [parsedArgs|]; [|done].
  destruct (truthy _); cbn [negb]; [|done].
  destruct (network _ probeQuery ∅) as [probe|]; [|done].
  intros [= _ <-]. eexists. split.
  - destruct (network _ introspectionQuery ∅) as [data|]; [destruct (schemaOf data)|]; reflexivity.
  - destruct (network _ introspectionQuery ∅) as [data|]; [destruct (schemaOf data)|]; done.
Qed.

(** ** Environment and start-up *)

(** X17: a bearer token in the environment is sent as the [Authorization]
    header, and an API key as the [X-API-Key] header, whatever the header
    variable says for these names; every other header is the one of the
    header variable, and without token and key the headers are those of the
    header variable. *)
Theorem environment_credentials_in_headers parseHeaders (env : Env.t) :
  let headers := EnvConfig.headers (loadEnvironmentConfig parseHeaders env) in
  let parsed :=
    if truthy (Env.GRAPHQL_HEADERS env)
    then parseHeaders (default [] (Env.GRAPHQL_HEADERS env)) else None in
  (∀ token, Env.GRAPHQL_AUTH_TOKEN env = Some token → token ≠ [] →
     default ∅ headers !! js "Authorization" = Some (js "Bearer " ++ token))
  ∧ (∀ key, Env.GRAPHQL_API_KEY env = Some key → key ≠ [] →
       default ∅ headers !! js "X-API-Key" = Some key)
  ∧ (∀ k, k ≠ js "Authorization" → k ≠ js "X-API-Key" →
       default ∅ headers !! k = default ∅ parsed !! k)
  ∧ (truthy (Env.GRAPHQL_AUTH_TOKEN env) = false → truthy (Env.GRAPHQL_API_KEY env) = false →
     headers = parsed).
Proof.
  cbn zeta. unfold loadEnvironmentConfig. cbn [EnvConfig.headers].
  set (parsed := if truthy (Env.GRAPHQL_HEADERS env) then _ else None).
  assert (js "X-API-Key" ≠ js "Authorization") as Hne by done.
  split_and!.
  - intros token -> Ht. destruct token as [|c token]; [done|]. cbn [truthy default from_option id].
    destruct (truthy (Env.GRAPHQL_API_KEY env)); cbn [default from_option id].
    + rewrite lookup_insert_ne by done. by rewrite lookup_insert_eq.
    + by rewrite lookup_insert_eq.
  - intros key -> Hk. destruct key as [|c key]; [done|]. cbn [truthy default from_option id].
    by rewrite lookup_insert_eq.
  - intros k Ha Hx.
    destruct (truthy (Env.GRAPHQL_AUTH_TOKEN env)), (truthy (Env.GRAPHQL_API_KEY env));
      cbn [default from_option id]; rewrite ?lookup_insert_ne by done; done.
  - by intros -> ->.
Qed.

Lemma split_length sep s :
  Z.of_nat (length (split sep s)) = (occurrences sep s + 1)%Z ∧ split sep s ≠ [].
Proof.
  induction s as [|c s [IH Hne]]; [done|]. cbn [split]. rewrite occurrences_cons.
  destruct (c =? sep)%N.
  - split; [|done]. cbn [length]. lia.
  - destruct (split sep s) as [|p ps]; [done|]. split; [|done]. cbn [length] in *. lia.
Qed.

Lemma split_parts sep s : Forall (fun part => sep ∉ part) (split sep s).
Proof.
  induction s as [|c s IH]; [repeat constructor; by intros ?%elem_of_nil|]. cbn [split].
  destruct (N.eqb_spec c sep) as [->|Hc].
  - constructor; [by intros ?%elem_of_nil|done].
  - destruct (split sep s) as [|p ps]; inversion IH; subst;
      constructor; try done; intros [?|?]%elem_of_cons; try done.
    by apply elem_of_nil in H.
Qed.

(** X18: the disabled resolvers of the environment are the parts of the
    variable between its commas, one more than there are commas; no name
    holds a comma, and none starts or ends with white space. *)
Theorem environment_resolver_names parseHeaders (env : Env.t) (value : jsstring) :
  Env.GRAPHQL_DISABLED_RESOLVERS env = Some value → value ≠ [] →
  ∃ names, EnvConfig.disabledResolvers (loadEnvironmentConfig parseHeaders env) = Some names
    ∧ Z.of_nat (length names) = (occurrences 44 value + 1)%Z
    ∧ ∀ name, name ∈ names → (44%N ∉ name) ∧ headTidy name ∧ headTidy (rev name).
Proof.
  intros Hv Hne. unfold loadEnvironmentConfig. cbn [EnvConfig.disabledResolvers]. rewrite Hv.
  destruct value as [|c value]; [done|]. cbn [truthy default from_option].
  eexists. split_and!; [reflexivity| |].
  - rewrite length_fmap. apply split_length.
  - intros name (part & -> & Hin)%list_elem_of_fmap. split_and!; [|apply trim_tidy..].
    pose proof (split_parts 44 (c :: value)) as Hparts.
    apply (proj1 (Forall_forall _ _) Hparts) in Hin.
    destruct (trim_infix part) as (w1 & w2 & Hp). intros Hc. apply Hin.
    rewrite Hp. apply elem_of_app. right. apply elem_of_app. by left.
Qed.



(** ** The further properties on examples *)

Lemma type_string_determines_type_witness :
  getGraphQLTypeString (listOfStrings SCALAR None) = js "[String!]!"
  ∧ wrappersAndName (listOfStrings SCALAR None)
    = wrappersAndName (listOfStrings ENUM (Some [js "A"])).
Proof.
  split; [reflexivity|].
  assert (Forall (fun c => Char.isWord c = true) (js "String")) as Hw
    by (vm_compute; repeat constructor).
  exact (type_string_determines_type (listOfStrings SCALAR None)
           (listOfStrings ENUM (Some [js "A"])) Hw Hw eq_refl).
Defined.

Lemma catalog_names_distinct_witness :
  NoDup (Field.name <$> rootFields countriesSchema (Schema.queryType countriesSchema))
  ∧ NoDup (Tool.name <$> createMCPToolsFromSchema sampleState countriesSchema).
Proof.
  assert (NoDup (Field.name <$> rootFields countriesSchema (Schema.queryType countriesSchema)))
    as Hq by (refine (bool_decide_unpack _ _); vm_compute; exact I).
  assert (NoDup (Field.name <$> rootFields countriesSchema (Schema.mutationType countriesSchema)))
    as Hm by (refine (bool_decide_unpack _ _); vm_compute; exact I).
  split; [exact Hq|].
  exact (proj1 (catalog_names_distinct sampleState countriesSchema Hq Hm)).
Defined.

Lemma dynamic_tool_dispatch_witness :
  NoDup (Tool.name <$> ServerState.dynamicTools sampleState)
  ∧ countriesTool ∈ ServerState.dynamicTools sampleState
  ∧ callTool lowerAscii sampleParseHeaders sampleStringify sampleSchemaOf sampleIsTruthy Env.empty
      sampleNetwork 2000 sampleState (js "query_countries") None
    = match sampleResolve sampleState countriesTool None with
      | Returned r => Returned (ResolverReply r)
      | Thrown e => Thrown e
      end.
Proof.
  assert (NoDup (Tool.name <$> ServerState.dynamicTools sampleState)) as Hnd
    by (refine (bool_decide_unpack _ _); vm_compute; exact I).
  assert (countriesTool ∈ ServerState.dynamicTools sampleState) as Hin by left.
  assert (Tool.name countriesTool ≠ js "get_status") as Hne by (vm_compute; discriminate).
  split_and!; [exact Hnd|exact Hin|].
  exact (proj1 (dynamic_tool_dispatch lowerAscii sampleParseHeaders sampleStringify
    sampleSchemaOf sampleIsTruthy Env.empty sampleNetwork 2000 sampleState countriesTool None Hnd Hin Hne)).
Defined.

Lemma disabled_error_names_first_witness :
  validateQueryConstraints lowerAscii (js "{ country { name } }") orderedConfig
    = Some (ResolverDisabled (js "Country"))
  ∧ ∃ before after, Config.disabledResolvers orderedConfig = before ++ js "Country" :: after
      ∧ occursIgnoringCase lowerAscii (js "Country") (sanitizeQuery (js "{ country { name } }"))
      ∧ ∀ r', r' ∈ before →
          ¬ occursIgnoringCase lowerAscii r' (sanitizeQuery (js "{ country { name } }")).
Proof.
  assert (validateQueryConstraints lowerAscii (js "{ country { name } }") orderedConfig
          = Some (ResolverDisabled (js "Country"))) as Hv by (vm_compute; reflexivity).
  split; [exact Hv|].
  exact (disabled_error_names_first lowerAscii _ orderedConfig _ Hv).
Defined.

Lemma empty_disabled_name_rejects_all_witness :
  lowerAscii [] = []
  ∧ [] ∈ Config.disabledResolvers emptyNameConfig
  ∧ ∃ e, validateQueryConstraints lowerAscii (js "{ countries { name } }") emptyNameConfig = Some e.
Proof.
  assert ([] ∈ Config.disabledResolvers emptyNameConfig) as Hin by (right; left).
  split_and!; [reflexivity|exact Hin|].
  exact (empty_disabled_name_rejects_all lowerAscii (js "{ countries { name } }")
           emptyNameConfig eq_refl Hin).
Defined.

Lemma stored_limits_in_range_witness :
  ∃ config, ServerState.config sampleState = Some config
    ∧ (inject_Z 1000 <= Config.timeout config)%Q ∧ (Config.timeout config <= inject_Z 60000)%Q
    ∧ (inject_Z 1 <= Config.maxDepth config)%Q ∧ (Config.maxDepth config <= inject_Z 20)%Q
    ∧ (inject_Z 1 <= Config.maxComplexity config)%Q
    ∧ (Config.maxComplexity config <= inject_Z 1000)%Q.
Proof.
  exact (stored_limits_in_range sampleIsUrl sampleParseHeaders sampleSchemaOf
    sampleIntrospectionQuery Env.empty sampleNetwork 1000 countriesArgs ServerState.initial
    _ sampleState sampleState_reached).
Defined.

Lemma configure_caches_introspection_witness :
  let run := handleConfigureGraphQL sampleIsUrl sampleParseHeaders sampleSchemaOf
               sampleIntrospectionQuery Env.empty nullIntrospectionNetwork 1000 countriesArgs
               ServerState.initial in
  (∃ summary, run.1 = Returned summary)
  ∧ ServerState.client run.2 = Some sampleClient
  ∧ ServerState.cachedSchema run.2 = Some SampleNull
  ∧ ServerState.schemaTimestamp run.2 = 1000%Z
  ∧ Status.schemaCache (handleGetStatus sampleIsTruthy 2500 run.2) = false
  ∧ Status.cacheAge (handleGetStatus sampleIsTruthy 2500 run.2) = None
  ∧ ServerState.dynamicTools run.2 = [].
Proof.
  intros run.
  assert (∃ summary state', run = (Returned summary, state')) as (summary & state' & H)
    by (vm_compute; eexists _, _; reflexivity).
  destruct (configure_caches_introspection sampleIsUrl sampleParseHeaders sampleSchemaOf
    sampleIntrospectionQuery sampleIsTruthy Env.empty nullIntrospectionNetwork 1000 countriesArgs
    ServerState.initial summary state' H) as (client & Hc & Hr).
  rewrite H. cbn [fst snd].
  assert (client = sampleClient) as ->.
  { assert (ServerState.client run.2 = Some sampleClient) as Hs by (vm_compute; reflexivity).
    rewrite H in Hs. cbn [snd] in Hs. congruence. }
  destruct Hr as (H1 & H2 & H3 & H4 & H5).
  split_and!; [by eexists|exact Hc|exact H1|exact H2|exact (H3 2500%Z)|exact (H4 2500%Z)
              |exact (H5 eq_refl)].
Defined.

Lemma environment_resolver_names_witness :
  Env.GRAPHQL_DISABLED_RESOLVERS resolversEnv = Some (js "user, adminMutation ,")
  ∧ EnvConfig.disabledResolvers (loadEnvironmentConfig sampleParseHeaders resolversEnv)
    = Some [js "user"; js "adminMutation"; []]
  ∧ ∃ names, EnvConfig.disabledResolvers (loadEnvironmentConfig sampleParseHeaders resolversEnv)
             = Some names
      ∧ Z.of_nat (length names) = (occurrences 44 (js "user, adminMutation ,") + 1)%Z
      ∧ ∀ name, name ∈ names → (44%N ∉ name) ∧ headTidy name ∧ headTidy (rev name).
Proof.
  assert (js "user, adminMutation ," ≠ []) as Hne by (vm_compute; discriminate).
  split_and!; [reflexivity|vm_compute; reflexivity|].
  exact (environment_resolver_names sampleParseHeaders resolversEnv _ eq_refl Hne).
Defined.

(** ** Resolver calls and the network *)

(** X20: a resolver call on a server that is not configured, or whose query
    fails the safety checks, sends nothing: it throws the same error on every
    network, with the code [InvalidRequest] or [InvalidParams]. *)
Theorem rejected_call_sends_nothing {Json} toLowerCase parseHeaders stringify
    (schemaOf : Json → option Schema.t) env (network1 network2 : @Network Json)
    state tool args :
  (ServerState.client state = None ∨ ServerState.config state = None
   ∨ ∃ config e, ServerState.config state = Some config
       ∧ validateQueryConstraints toLowerCase
           (buildQuery schemaOf state tool (default [] args)) config = Some e) →
  ∃ e, handleGraphQLResolver toLowerCase parseHeaders stringify schemaOf
         env network1 state tool args = Thrown (Mcp e)
     ∧ handleGraphQLResolver toLowerCase parseHeaders stringify schemaOf
         env network2 state tool args = Thrown (Mcp e)
     ∧ (errorCode e = InvalidRequest ∨ errorCode e = InvalidParams).
Proof.
  unfold handleGraphQLResolver.
  intros [Hc|[Hf|(config & e & Hf & Hv)]].
  - rewrite Hc. eexists. split_and!; [done..|by left].
  - rewrite Hf. destruct (ServerState.client state); eexists; (split_and!; [done..|by left]).
  - rewrite Hf. destruct (ServerState.client state) as [client|];
      [|eexists; split_and!; [done..|by left]].
    rewrite Hv. exists e. split_and!; [done..|]. right.
    unfold validateQueryConstraints in Hv.
    destruct (exceeds (Z.of_nat _) _); [by injection Hv as <-|].
    destruct (exceeds (calculateQueryDepth _) _); [by injection Hv as <-|].
    destruct (firstDisabled _ _ _); [by injection Hv as <-|done].
Qed.

(** ** Depth and white space *)

Lemma isSpace_braceStep c : Char.isSpace c = true → braceStep c = 0%Z.
Proof.
  intros H. unfold braceStep.
  assert ((c =? Char.lbrace)%N = false) as -> by (revert H; unfold Char.isSpace, Char.lbrace; intros H; char_class).
  assert ((c =? Char.rbrace)%N = false) as -> by (revert H; unfold Char.isSpace, Char.rbrace; intros H; char_class).
  done.
Qed.

Lemma prefixPeak_space c s : Char.isSpace c = true → prefixPeak (c :: s) = prefixPeak s.
Proof.
  intros H. cbn [prefixPeak]. rewrite (isSpace_braceStep c H).
  pose proof (prefixPeak_nonneg s). lia.
Qed.

Lemma prefixPeak_skip_space s : prefixPeak (skipWhile Char.isSpace s) = prefixPeak s.
Proof.
  induction s as [|c s IH]; [done|]. cbn [skipWhile].
  destruct (Char.isSpace c) eqn:Hc; [|done]. by rewrite (prefixPeak_space c s Hc).
Qed.

Lemma prefixPeak_normalizeWhitespace s : prefixPeak (normalizeWhitespace s) = prefixPeak s.
Proof.
  induction s as [|c s IH] using drop_induction; [done|].
  rewrite normalizeWhitespace_cons. destruct (Char.isSpace c) eqn:Hc.
  - rewrite (prefixPeak_space c s Hc), (prefixPeak_space Char.space) by done.
    rewrite <- drop_runLength, IH, drop_runLength. apply prefixPeak_skip_space.
  - cbn [prefixPeak]. do 2 f_equal. apply (IH 0).
Qed.

Lemma prefixPeak_trimStart s : prefixPeak (trimStart s) = prefixPeak s.
Proof.
  induction s as [|c s IH]; [done|]. cbn [trimStart].
  destruct (Char.isSpace c) eqn:Hc; [|done]. by rewrite (prefixPeak_space c s Hc).
Qed.

Lemma trimStart_suffix_space s :
  ∃ w, s = w ++ trimStart s ∧ Forall (fun c => Char.isSpace c = true) w.
Proof.
  induction s as [|c s (w & Hw & Hs)]; [by exists []|]. cbn [trimStart].
  destruct (Char.isSpace c) eqn:Hc; [|by exists []].
  exists (c :: w). split; [simpl; by f_equal|by constructor].
Qed.

Lemma prefixPeak_spaces_after s w :
  Forall (fun c => Char.isSpace c = true) w → prefixPeak (s ++ w) = prefixPeak s.
Proof.
  intros Hw. rewrite prefixPeak_app.
  assert (prefixPeak w = 0%Z) as ->.
  { induction Hw as [|c w Hc _ IH]; [done|]. by rewrite (prefixPeak_space c w Hc). }
  pose proof (prefixPeak_bound s (length s)). lia.
Qed.

Lemma prefixPeak_trim s : prefixPeak (trim s) = prefixPeak s.
Proof.
  unfold trim. rewrite <- (prefixPeak_trimStart s). generalize (trimStart s). clear s. intros s.
  unfold trimEnd. destruct (trimStart_suffix_space (rev s)) as (w & Hw & Hs).
  assert (s = rev (trimStart (rev s)) ++ rev w) as Hsplit
    by (by rewrite <- rev_app_distr, <- Hw, rev_involutive).
  transitivity (prefixPeak (rev (trimStart (rev s)) ++ rev w)); [|by rewrite <- Hsplit].
  symmetry. apply prefixPeak_spaces_after. by apply Forall_rev.
Qed.

Lemma removeBlockComments_id s : Char.slash ∉ s → removeBlockComments s = s.
Proof.
  unfold removeBlockComments. induction s as [|c s IH]; [done|].
  intros [Hc Hs]%not_elem_of_cons. rewrite replaceAll_cons.
  assert (reBlockComment (c :: s) = None) as ->.
  { unfold reBlockComment, lit2. destruct s as [|y s']; [done|].
    destruct (N.eqb_spec c Char.slash); [done|]. done. }
  by rewrite IH.
Qed.

(** X21: sanitization changes the depth only by the comments it removes:
    the depth of the sanitized text is the depth of the text without its
    comments, and a text without [/] and [#] has the depth of its sanitized
    text. *)
Theorem depth_of_sanitized_text (s : jsstring) :
  calculateQueryDepth (sanitizeQuery s)
    = calculateQueryDepth (removeLineComments (removeBlockComments s))
  ∧ (Char.slash ∉ s → Char.hash ∉ s →
     calculateQueryDepth (sanitizeQuery s) = calculateQueryDepth s).
Proof.
  assert (calculateQueryDepth (sanitizeQuery s)
          = calculateQueryDepth (removeLineComments (removeBlockComments s))) as H.
  { rewrite !calculateQueryDepth_peak. unfold sanitizeQuery.
    by rewrite prefixPeak_trim, prefixPeak_normalizeWhitespace. }
  split; [done|]. intros Hs Hh. rewrite H, (removeBlockComments_id s Hs).
  rewrite removeLineComments_id; [done|]. apply Forall_forall. by intros c Hc ->.
Qed.

(** ** The depth of synthesized queries *)

Lemma depth_sanitize_comment_free s :
  (Char.slash ∉ s) → (Char.hash ∉ s) →
  calculateQueryDepth (sanitizeQuery s) = calculateQueryDepth s.
Proof.
  intros Hs Hh. rewrite !calculateQueryDepth_peak. unfold sanitizeQuery.
  rewrite prefixPeak_trim, prefixPeak_normalizeWhitespace, (removeBlockComments_id s Hs).
  rewrite removeLineComments_id; [done|]. apply Forall_forall. by intros c Hc ->.
Qed.

Lemma plain_app a b : plain (a ++ b) ↔ plain a ∧ plain b.
Proof. apply Forall_app. Qed.

Lemma plain_join sep parts : plain sep → Forall plain parts → plain (join sep parts).
Proof.
  intros Hsep. induction 1 as [|p ps Hp _ IH]; [constructor|].
  destruct ps as [|q ps]; [done|].
  change (join sep (p :: q :: ps)) with (p ++ sep ++ join sep (q :: ps)).
  by rewrite !plain_app.
Qed.

Ltac plain_literal :=
  vm_compute; repeat (constructor; [repeat split; discriminate|]); constructor.

Lemma plain_parenthesized pairs : Forall plain pairs → plain (parenthesized pairs).
Proof.
  intros H. destruct pairs as [|p ps]; [constructor|]. unfold parenthesized.
  rewrite !plain_app. split_and!; [plain_literal|apply plain_join; [plain_literal|done]|plain_literal].
Qed.

Lemma depth_sanitize_plain s :
  Forall (fun c => c ≠ Char.slash ∧ c ≠ Char.hash) s →
  calculateQueryDepth (sanitizeQuery s) = calculateQueryDepth s.
Proof.
  intros H. apply depth_sanitize_comment_free; intros Hin;
    apply (proj1 (Forall_forall _ _) H) in Hin; tauto.
Qed.

Lemma plain_no_comment s : plain s → Forall (fun c => c ≠ Char.slash ∧ c ≠ Char.hash) s.
Proof. intros H. eapply Forall_impl; [exact H|]. cbn. tauto. Qed.

Lemma prefixPeak_plain a s : plain a → prefixPeak (a ++ s) = prefixPeak s.
Proof.
  induction 1 as [|c a (Hl & Hr & _) _ IH]; [done|].
  cbn [app prefixPeak]. rewrite IH. unfold braceStep.
  destruct (N.eqb_spec c Char.lbrace); [done|]. destruct (N.eqb_spec c Char.rbrace); [done|].
  pose proof (prefixPeak_nonneg s). lia.
Qed.

Lemma prefixPeak_open s : prefixPeak (Char.lbrace :: s) = (1 + prefixPeak s)%Z.
Proof.
  cbn [prefixPeak]. change (braceStep Char.lbrace) with 1%Z.
  pose proof (prefixPeak_nonneg s). lia.
Qed.

Lemma prefixPeak_close s : prefixPeak (Char.rbrace :: s) = Z.max 0 (prefixPeak s - 1).
Proof. cbn [prefixPeak]. change (braceStep Char.rbrace) with (-1)%Z. lia. Qed.

(** The text of a synthesized query, by its parts around the braces. *)
Lemma buildQuery_parts {Json} (schemaOf : Json → option Schema.t) state tool entries :
  let resolver := Tool.resolver tool in
  buildQuery schemaOf state tool entries
  = (opWord (Resolver.type resolver) ++ js " " ++ parenthesized (varPair tool <$> entries)
       ++ js " ")
    ++ Char.lbrace
       :: (nl ++ js "    " ++ Resolver.fieldName resolver ++ parenthesized (argPair <$> entries))
       ++ getBasicSelectionSet schemaOf state (Resolver.returnType resolver)
       ++ (nl ++ js "  ") ++ [Char.rbrace].
Proof.
  cbn zeta. unfold buildQuery.
  change (js " {") with (js " " ++ [Char.lbrace]). change (js "  }") with (js "  " ++ [Char.rbrace]).
  by rewrite <- !app_assoc.
Qed.

Lemma selection_parts names :
  selection names = js " " ++ Char.lbrace :: (js " " ++ join (js " ") names ++ js " ") ++ [Char.rbrace].
Proof.
  unfold selection. change (js " { ") with (js " " ++ [Char.lbrace] ++ js " ").
  change (js " }") with (js " " ++ [Char.rbrace]). by rewrite <- !app_assoc.
Qed.

Ltac no_comment_parts :=
  apply depth_sanitize_plain;
  repeat (rewrite ?Forall_app, ?Forall_cons, ?Forall_nil);
  split_and!; try (by apply plain_no_comment); try discriminate; done.

(** X22: a synthesized query whose names hold no brace, [/] or [#] (the
    field name, the argument names with their type strings, the names of the
    selection) has depth 1 when the selection set is empty and depth 2
    otherwise, on the raw and on the sanitized text. *)
Theorem synthesized_query_depth {Json} (schemaOf : Json → option Schema.t)
    (state : ServerState.t Json) (tool : Tool.t) (entries : list (jsstring * Json))
    (names : list jsstring) :
  let resolver := Tool.resolver tool in
  let selectionSet := getBasicSelectionSet schemaOf state (Resolver.returnType resolver) in
  plain (Resolver.fieldName resolver) →
  Forall plain (argPair <$> entries) →
  Forall plain (varPair tool <$> entries) →
  selectionSet = [] ∨ (selectionSet = selection names ∧ Forall plain names) →
  calculateQueryDepth (sanitizeQuery (buildQuery schemaOf state tool entries))
    = calculateQueryDepth (buildQuery schemaOf state tool entries)
  ∧ calculateQueryDepth (buildQuery schemaOf state tool entries)
    = match selectionSet with [] => 1%Z | _ :: _ => 2%Z end.
Proof.
  intros resolver selectionSet Hfield Hargs Hvars Hsel.
  rewrite buildQuery_parts. fold resolver. fold selectionSet.
  set (pre := opWord (Resolver.type resolver) ++ js " "
                ++ parenthesized (varPair tool <$> entries) ++ js " ").
  set (mid := nl ++ js "    " ++ Resolver.fieldName resolver
                ++ parenthesized (argPair <$> entries)).
  set (post := nl ++ js "  ").
  assert (plain pre) as Hpre.
  { unfold pre. rewrite !plain_app. split_and!; [destruct (Resolver.type resolver); plain_literal
      |plain_literal|by apply plain_parenthesized|plain_literal]. }
  assert (plain mid) as Hmid.
  { unfold mid. rewrite !plain_app.
    split_and!; [plain_literal|plain_literal|done|by apply plain_parenthesized]. }
  assert (plain post) as Hpost by plain_literal.
  assert (plain (js " ")) as Hsp by plain_literal.
  destruct Hsel as [->|[-> Hnames]].
  - split.
    + no_comment_parts.
    + rewrite !calculateQueryDepth_peak, (prefixPeak_plain _ _ Hpre), prefixPeak_open.
      rewrite app_nil_l, (prefixPeak_plain _ _ Hmid), (prefixPeak_plain _ _ Hpost).
      by rewrite prefixPeak_close.
  - rewrite selection_parts.
    set (inner := js " " ++ join (js " ") names ++ js " ").
    assert (plain inner) as Hin.
    { unfold inner. rewrite !plain_app. split_and!; [done|by apply plain_join|done]. }
    split.
    + no_comment_parts.
    + rewrite !calculateQueryDepth_peak, (prefixPeak_plain _ _ Hpre), prefixPeak_open.
      rewrite (prefixPeak_plain _ _ Hmid), <- !app_assoc.
      rewrite (prefixPeak_plain _ _ Hsp). cbn [app]. rewrite prefixPeak_open.
      rewrite <- (app_assoc inner), (prefixPeak_plain _ _ Hin). cbn [app].
      rewrite prefixPeak_close, (prefixPeak_plain _ _ Hpost), prefixPeak_close.
      done.
Qed.

Lemma rejected_call_sends_nothing_witness :
  validateQueryConstraints lowerAscii (buildQuery sampleSchemaOf guardedState countryTool [])
    guardedConfig = Some (ResolverDisabled (js "Country"))
  ∧ ∃ e, handleGraphQLResolver lowerAscii sampleParseHeaders sampleStringify sampleSchemaOf
           Env.empty sampleNetwork guardedState countryTool None = Thrown (Mcp e)
       ∧ handleGraphQLResolver lowerAscii sampleParseHeaders sampleStringify sampleSchemaOf
           Env.empty deadNetwork guardedState countryTool None = Thrown (Mcp e)
       ∧ (errorCode e = InvalidRequest ∨ errorCode e = InvalidParams).
Proof.
  split; [vm_compute; reflexivity|].
  assert (∃ config e, ServerState.config guardedState = Some config
            ∧ validateQueryConstraints lowerAscii
                (buildQuery sampleSchemaOf guardedState countryTool (default [] None)) config
              = Some e) as H
    by (eexists _, _; split; [reflexivity|vm_compute; reflexivity]).
  exact (rejected_call_sends_nothing lowerAscii sampleParseHeaders sampleStringify
    sampleSchemaOf Env.empty sampleNetwork deadNetwork guardedState countryTool None
    (or_intror (or_intror H))).
Defined.

Lemma synthesized_query_depth_witness :
  getBasicSelectionSet sampleSchemaOf sampleState (Resolver.returnType (Tool.resolver countryTool))
    = selection [js "name"; js "code"; js "emoji"]
  ∧ calculateQueryDepth (sanitizeQuery
      (buildQuery sampleSchemaOf sampleState countryTool [(js "code", SampleData (js "BR"))]))
    = 2%Z.
Proof.
  assert (getBasicSelectionSet sampleSchemaOf sampleState
            (Resolver.returnType (Tool.resolver countryTool))
          = selection [js "name"; js "code"; js "emoji"]) as Hs by (vm_compute; reflexivity).
  assert (plain (Resolver.fieldName (Tool.resolver countryTool))) as Hf by plain_literal.
  assert (Forall plain (argPair <$> [(js "code", SampleData (js "BR"))])) as Ha
    by (repeat (constructor; [plain_literal|]); constructor).
  assert (Forall plain (varPair countryTool <$> [(js "code", SampleData (js "BR"))])) as Hv
    by (repeat (constructor; [plain_literal|]); constructor).
  assert (Forall plain [js "name"; js "code"; js "emoji"]) as Hn
    by (repeat (constructor; [plain_literal|]); constructor).
  split; [exact Hs|].
  destruct (synthesized_query_depth sampleSchemaOf sampleState countryTool
    [(js "code", SampleData (js "BR"))] [js "name"; js "code"; js "emoji"]
    Hf Ha Hv (or_intror (conj Hs Hn))) as [H1 H2].
  rewrite H1, H2, Hs. reflexivity.
Defined.

(** ** Arguments of a resolver call *)

(** X23: an argument of a call whose name is declared by the resolver is
    declared in the query as a variable of the declared type, as
    [getGraphQLTypeString] renders it, and is applied to the field as
    [name: $name]. *)
Theorem declared_argument_typed {Json} (schemaOf : Json → option Schema.t)
    (state : ServerState.t Json) (tool : Tool.t) (entries : list (jsstring * Json))
    (key : jsstring) (value : Json) (arg : Arg.t) :
  (key, value) ∈ entries →
  List.find (fun a => bool_decide (Arg.name a = key)) (Resolver.args (Tool.resolver tool))
    = Some arg →
  let declaration := js "$" ++ key ++ js ": " ++ getGraphQLTypeString (Arg.type arg) in
  let query := buildQuery schemaOf state tool entries in
  declaration ∈ (varPair tool <$> entries)
  ∧ includes query declaration = true
  ∧ includes query (key ++ js ": $" ++ key) = true.
Proof.
  intros Hin Hfind declaration query.
  assert (declaration ∈ (varPair tool <$> entries)) as Hdecl.
  { apply list_elem_of_fmap. exists (key, value). split; [|done].
    unfold declaration, varPair. cbn [fst]. by rewrite Hfind. }
  assert ((key ++ js ": $" ++ key) ∈ (argPair <$> entries)) as Happ.
  { apply list_elem_of_fmap. by exists (key, value). }
  split_and!; [done| |].
  - unfold query, buildQuery.
    rewrite (app_assoc (opWord _) (js " ")). apply includes_within.
    by apply parenthesized_includes.
  - unfold query, buildQuery. do 7 apply includes_after.
    apply (includes_within []). by apply parenthesized_includes.
Qed.

(** X24: the variables sent with the query are the arguments of the call
    but for one named [__proto__]: a name has a value in the variables
    exactly when the call supplies it and it is not [__proto__]. *)
Theorem variables_are_the_arguments {Json} (entries : list (jsstring * Json)) (key : jsstring) :
  is_Some (collectVariables entries !! key) ↔ key ∈ entries.*1 ∧ key ≠ js "__proto__".
Proof.
  unfold collectVariables.
  cut (∀ m : gmap jsstring Json,
         is_Some (fold_left (fun variables entry => assign entry.1 entry.2 variables) entries m
                    !! key)
         ↔ is_Some (m !! key) ∨ (key ∈ entries.*1 ∧ key ≠ js "__proto__")).
  { intros H. rewrite H, lookup_empty. split; [intros [[? [=]]|]; done|by right]. }
  induction entries as [|[k v] entries IH]; intros m.
  - cbn. rewrite elem_of_nil. tauto.
  - cbn [fold_left fmap list_fmap fst snd]. rewrite IH, elem_of_cons.
    destruct (decide (k = key)) as [<-|Hne].
    + destruct (decide (k = js "__proto__")) as [Hp|Hp].
      * rewrite Hp, assign_lookup_proto. tauto.
      * rewrite assign_lookup_eq by done.
        split; [intros _; right; split; [by left|done]|intros _; left; by eexists].
    + rewrite assign_lookup_ne by done.
      split; [intros [?|[? ?]]; [by left|right; split; [by right|done]]
             |intros [?|[[?|?] ?]]; [by left|congruence|by right]].
Qed.

Lemma declared_argument_typed_witness :
  (js "code", SampleData (js "BR")) ∈ [(js "code", SampleData (js "BR"))]
  ∧ includes (buildQuery sampleSchemaOf sampleState countryTool [(js "code", SampleData (js "BR"))])
      (js "$code: ID!") = true
  ∧ includes (buildQuery sampleSchemaOf sampleState countryTool [(js "code", SampleData (js "BR"))])
      (js "code: $code") = true.
Proof.
  assert ((js "code", SampleData (js "BR")) ∈ [(js "code", SampleData (js "BR"))]) as Hin by left.
  split; [exact Hin|].
  exact (proj2 (declared_argument_typed sampleSchemaOf sampleState countryTool
    [(js "code", SampleData (js "BR"))] (js "code") (SampleData (js "BR"))
    {| Arg.name := js "code"; Arg.description := None;
       Arg.type := NON_NULL (Named SCALAR (js "ID") None) |} Hin eq_refl)).
Defined.

(** ** The key [__proto__] *)

(** An argument named [__proto__] is declared in the query, and no value is
    stored for it in the variables; an argument of a field named so is
    required and is no property of the input schema. *)
Example proto_key_is_not_stored :
  let entries := [(js "__proto__", SampleData (js "x")); (js "code", SampleData (js "BR"))] in
  let field :=
    {| Field.name := js "f"; Field.description := None;
       Field.args := Some [ {| Arg.name := js "__proto__"; Arg.description := None;
                               Arg.type := NON_NULL (Named SCALAR (js "ID") None) |} ];
       Field.type := Named SCALAR (js "String") None |} in
  includes (buildQuery sampleSchemaOf sampleState countryTool entries)
    (js "($__proto__: String, $code: ID!)") = true
  ∧ collectVariables entries = {[ js "code" := SampleData (js "BR") ]}
  ∧ InputSchema.required (Tool.inputSchema (toolOfField OpQuery field)) = [js "__proto__"]
  ∧ InputSchema.properties (Tool.inputSchema (toolOfField OpQuery field)) = ∅.
Proof. vm_compute. repeat split; reflexivity. Qed.
